(** * eth-faucet: the request-admission middleware of [internal/server]

    A shallow embedding of [Limiter.ServeHTTP], [Limiter.limitByKey],
    [getClientIPFromRequest] and [Captcha.ServeHTTP], together with the
    parts of the Go standard library and of the expiring cache that they
    call, and the properties of the admission layer proved over it. *)

From Stdlib Require Import ZArith Lia Ascii String List DecimalString.
From stdpp Require Import base option list strings gmap.

Local Open Scope Z_scope.
Local Open Scope string_scope.

(** ** Go strings

    A Go string is a sequence of bytes; [string] (a list of [ascii]) is
    used for it, one [ascii] per byte. *)

Module GoStrings.

Definition byte_eqb (a b : ascii) : bool := Ascii.eqb a b.

(** [strings.IndexByte]: position of the first [c], if any. *)
Fixpoint IndexByte (s : string) (c : ascii) : option nat :=
  match s with
  | EmptyString => None
  | String a s' =>
      if byte_eqb a c then Some O
      else match IndexByte s' c with
           | Some i => Some (S i)
           | None => None
           end
  end.

(** [strings.LastIndexByte]: position of the last [c], if any. *)
Fixpoint LastIndexByte (s : string) (c : ascii) : option nat :=
  match s with
  | EmptyString => None
  | String a s' =>
      match LastIndexByte s' c with
      | Some i => Some (S i)
      | None => if byte_eqb a c then Some O else None
      end
  end.

(** The slice [s[i:]]. *)
Fixpoint drop_bytes (i : nat) (s : string) : string :=
  match i, s with
  | O, _ => s
  | S i', String _ s' => drop_bytes i' s'
  | S _, EmptyString => EmptyString
  end.

(** The slice [s[:j]]. *)
Fixpoint take_bytes (j : nat) (s : string) : string :=
  match j, s with
  | S j', String a s' => String a (take_bytes j' s')
  | _, _ => EmptyString
  end.

(** The slice [s[i:j]]. *)
Definition slice (i j : nat) (s : string) : string :=
  take_bytes (j - i) (drop_bytes i s).

(** The byte [s[i]]. *)
Definition byte_at (i : nat) (s : string) : option ascii := String.get i s.

(** [strings.Split(s, sep)] for a one-byte separator: the pieces between
    the occurrences of [sep]; always at least one piece. *)
Fixpoint Split (s : string) (sep : ascii) : list string :=
  match s with
  | EmptyString => [EmptyString]
  | String a s' =>
      if byte_eqb a sep then EmptyString :: Split s' sep
      else match Split s' sep with
           | piece :: rest => String a piece :: rest
           | [] => [String a EmptyString]
           end
  end.

(** The UTF-8 encodings of the code points for which [unicode.IsSpace]
    holds: tab, line feed, vertical tab, form feed, carriage return,
    space, U+0085, U+00A0, U+1680, U+2000 to U+200A, U+2028, U+2029,
    U+202F, U+205F and U+3000. *)
Definition bytes (l : list nat) : string :=
  string_of_list_ascii (map ascii_of_nat l).

Definition space_encodings : list string :=
  map bytes
    [ [9]; [10]; [11]; [12]; [13]; [32];
      [194; 133]; [194; 160];
      [225; 154; 128];
      [226; 128; 128]; [226; 128; 129]; [226; 128; 130]; [226; 128; 131];
      [226; 128; 132]; [226; 128; 133]; [226; 128; 134]; [226; 128; 135];
      [226; 128; 136]; [226; 128; 137]; [226; 128; 138];
      [226; 128; 168]; [226; 128; 169]; [226; 128; 175];
      [226; 129; 159];
      [227; 128; 128] ]%nat.

(** [strip_prefix p s] is the rest of [s] after [p], when [s] starts
    with [p]. *)
Fixpoint strip_prefix (p s : string) : option string :=
  match p, s with
  | EmptyString, _ => Some s
  | String a p', String b s' =>
      if byte_eqb a b then strip_prefix p' s' else None
  | String _ _, EmptyString => None
  end.

(** The rest of [s] after one leading rune of [encs], if it starts with
    one. *)
Definition strip_rune (encs : list string) (s : string) : option string :=
  foldr (fun p acc => match strip_prefix p s with
                      | Some r => Some r
                      | None => acc
                      end) None encs.

Fixpoint trim_left_with (encs : list string) (fuel : nat) (s : string)
  : string :=
  match fuel with
  | O => s
  | S fuel' =>
      match strip_rune encs s with
      | Some r => trim_left_with encs fuel' r
      | None => s
      end
  end.

Fixpoint rev_bytes (s acc : string) : string :=
  match s with
  | EmptyString => acc
  | String a s' => rev_bytes s' (String a acc)
  end.

Definition reverse (s : string) : string := rev_bytes s EmptyString.

Definition TrimLeftSpace (s : string) : string :=
  trim_left_with space_encodings (String.length s) s.

(** Trimming on the right decodes the last rune backwards; a string ends
    in a space rune exactly when its reversal starts with the reversed
    encoding of one. *)
Definition TrimRightSpace (s : string) : string :=
  reverse (trim_left_with (map reverse space_encodings)
             (String.length s) (reverse s)).

(** [strings.TrimSpace]. *)
Definition TrimSpace (s : string) : string :=
  TrimRightSpace (TrimLeftSpace s).

End GoStrings.

(** ** [net.SplitHostPort] *)

Module GoNet.
Import GoStrings.

Inductive AddrError : Type :=
| missingPort
| tooManyColons
| missingCloseBracket
| unexpectedOpenBracket
| unexpectedCloseBracket.

Definition found (o : option nat) : bool :=
  match o with Some _ => true | None => false end.

Definition is_byte (o : option ascii) (c : ascii) : bool :=
  match o with Some a => byte_eqb a c | None => false end.

(** The checks after the host has been cut out: no '[' from position
    [j] on, no ']' from position [k] on; the port starts after the last
    colon, at [i + 1]. *)
Definition finish (hostport host : string) (i j k : nat)
  : (string * string) + AddrError :=
  if found (IndexByte (drop_bytes j hostport) "[") then
    inr unexpectedOpenBracket
  else if found (IndexByte (drop_bytes k hostport) "]") then
    inr unexpectedCloseBracket
  else inl (host, drop_bytes (i + 1) hostport).

Definition SplitHostPort (hostport : string)
  : (string * string) + AddrError :=
  match LastIndexByte hostport ":" with
  | None => inr missingPort
  | Some i =>
      if is_byte (byte_at 0 hostport) "[" then
        match IndexByte hostport "]" with
        | None => inr missingCloseBracket
        | Some close =>
            if (close + 1 =? String.length hostport)%nat then
              inr missingPort
            else if (close + 1 =? i)%nat then
              finish hostport (slice 1 close hostport) i 1 (close + 1)
            else if is_byte (byte_at (close + 1) hostport) ":" then
              inr tooManyColons
            else inr missingPort
        end
      else
        let host := take_bytes i hostport in
        if found (IndexByte host ":") then inr tooManyColons
        else finish hostport host i 0 0
  end.

End GoNet.

(** ** [time.Duration]: a count of nanoseconds in a signed 64-bit word *)

Module Duration.
Local Open Scope Z_scope.

Definition Second : Z := 1000000000.
Definition maxDuration : Z := 2 ^ 63 - 1.
Definition minDuration : Z := - 2 ^ 63.

(** [time.Until] and [Time.Sub] saturate at the ends of the range. *)
Definition saturate (d : Z) : Z :=
  if d <? minDuration then minDuration
  else if maxDuration <? d then maxDuration
  else d.

(** [Duration.Round]: to the nearest multiple of [m], halfway values
    away from zero; the end of the range when the result does not fit. *)
Definition Round (d m : Z) : Z :=
  if m <=? 0 then d
  else
    let r := Z.rem d m in
    if d <? 0 then
      let r := - r in
      if r + r <? m then d + r
      else
        let d1 := d - m + r in
        if minDuration <=? d1 then d1 else minDuration
    else
      if r + r <? m then d - r
      else
        let d1 := d + m - r in
        if d1 <=? maxDuration then d1 else maxDuration.

(** [fmtInt]: decimal digits of a natural number. *)
Definition fmtInt (v : Z) : string :=
  NilZero.string_of_uint (N.to_uint (Z.to_N v)).

Definition digit (v : Z) : ascii := ascii_of_nat (48 + Z.to_nat (v mod 10)).

(** [fmtFrac]: the last [prec] decimal digits of [v] as a fraction,
    trailing zeros and an empty fraction left out. *)
Fixpoint fracDigits (prec : nat) (v : Z) (print : bool) (acc : string)
  : string :=
  match prec with
  | O => if print then String "." acc else acc
  | S prec' =>
      let print' := print || negb (v mod 10 =? 0) in
      fracDigits prec' (v / 10) print'
        (if print' then String (digit v) acc else acc)
  end.

Definition fmtFrac (v : Z) (prec : nat) : string :=
  fracDigits prec v false EmptyString.

(** The micro sign U+00B5 in UTF-8. *)
Definition micro : string := GoStrings.bytes [194; 181]%nat.

(** [Duration.String], such as 72h3m0.5s, 42s, 1.5ms or 0s. *)
Definition String (d : Z) : string :=
  let u := Z.abs d in
  let body :=
    if u <? Second then
      if u =? 0 then "0s"
      else if u <? 1000 then fmtInt u ++ "ns"
      else if u <? 1000000 then
        fmtInt (u / 1000) ++ fmtFrac u 3 ++ micro ++ "s"
      else fmtInt (u / 1000000) ++ fmtFrac u 6 ++ "ms"
    else
      let secs := u / Second in
      let s := fmtInt (secs mod 60) ++ fmtFrac u 9 ++ "s" in
      let mins := secs / 60 in
      if 0 <? mins then
        let s := fmtInt (mins mod 60) ++ "m" ++ s in
        let hours := mins / 60 in
        if 0 <? hours then fmtInt hours ++ "h" ++ s else s
      else s
  in
  if d <? 0 then "-" ++ body else body.

End Duration.

(** ** The expiring key/value store

    The cache of [github.com/jellydator/ttlcache/v2], created by
    [NewLimiter] with [SkipTTLExtensionOnHit(true)] and no global TTL,
    by its contract: a record expires a given time after its insertion,
    or never when it is stored without TTL; a lookup neither renews nor
    reports an expired record; a removal is unconditional.  The clock
    reading of each call is an argument. *)

Module ttlcache.
Local Open Scope Z_scope.

(** The values the limiter stores: the sentinel [true] of a rate-limit
    record, and the [uint64] sequence number of a nonce record. *)
Inductive Value : Type :=
| VBool (b : bool)
| VUint64 (n : Z).

(** Go's [==] between an [interface{}] and a value: equal dynamic types
    and equal values. *)
Definition Value_eqb (a b : Value) : bool :=
  match a, b with
  | VBool x, VBool y => Bool.eqb x y
  | VUint64 x, VUint64 y => x =? y
  | _, _ => false
  end.

Record Item : Type := mkItem {
  data : Value;
  expireAt : option Z  (* [None]: stored without TTL *)
}.

Abbreviation Cache := (gmap string Item).

Definition expired (now : Z) (it : Item) : bool :=
  match expireAt it with
  | Some t => t <? now
  | None => false
  end.

Definition remaining (now : Z) (it : Item) : Z :=
  match expireAt it with
  | Some t => Z.max 0 (Duration.saturate (t - now))
  | None => 0
  end.

Definition getItem (c : Cache) (now : Z) (key : string) : option Item :=
  match c !! key with
  | Some it => if expired now it then None else Some it
  | None => None
  end.

(** [Get]: the value, or [None] for [ErrNotFound]. *)
Definition Get (c : Cache) (now : Z) (key : string) : option Value :=
  data <$> getItem c now key.

(** [GetWithTTL]: the value and the time left, or [None] for
    [ErrNotFound]. *)
Definition GetWithTTL (c : Cache) (now : Z) (key : string)
  : option (Value * Z) :=
  (fun it => (data it, remaining now it)) <$> getItem c now key.

Definition SetWithTTL (c : Cache) (now : Z) (key : string) (v : Value)
  (ttl : Z) : Cache :=
  <[key := mkItem v (if 0 <? ttl then Some (now + ttl) else None)]> c.

(** [Set]: with the global TTL, which is none. *)
Definition Set_ (c : Cache) (key : string) (v : Value) : Cache :=
  <[key := mkItem v None]> c.

Definition Remove (c : Cache) (key : string) : Cache := delete key c.

End ttlcache.

(** ** Requests, and what the limiter gets from its collaborators *)

Module server.
Import GoStrings GoNet ttlcache.
Local Open Scope Z_scope.

Definition StatusOK : Z := 200.
Definition StatusTooManyRequests : Z := 429.
Definition StatusInternalServerError : Z := 500.

(** [http.StatusText] at the one code it is called with. *)
Definition StatusText_InternalServerError : string :=
  "Internal Server Error".

(** The part of [http.Request] the middleware reads.  [Header] maps a
    canonical header name to its values. *)
Record Request : Type := {
  Header : gmap string (list string);
  RemoteAddr : string
}.

(** [http.Header.Get]: the first value of the header, the empty string
    when there is none. *)
Definition Header_Get (h : gmap string (list string)) (key : string)
  : string :=
  match h !! key with
  | Some (v :: _) => v
  | _ => EmptyString
  end.

(** The outcome of [readAddress(r)]: the address, a [*malformedRequest]
    with its status and message, or another error. *)
Inductive ParseResult : Type :=
| ParsedAddress (address : string)
| MalformedRequest (status : Z) (message : string)
| OtherError.

(** The outcomes of the calls that leave the process while one request
    is served, and the clock readings of its cache calls. *)
Record Env : Type := {
  readAddress : ParseResult;
  dialOk : bool;               (* [ethclient.Dial] returned no error *)
  pendingNonce : option Z;     (* [PendingNonceAt]: the nonce, or an error *)
  nextStatus : Z;              (* [w.Status()] once [next] has returned *)
  now_checkAddress : Z;
  now_checkClientIP : Z;
  now_setAddress : Z;
  now_setClientIP : Z;
  now_getNonce : Z
}.

Record Limiter : Type := {
  proxyCount : Z;
  ttl : Z;
  provider : string
}.

Record Captcha : Type := {
  secret : string
}.

(** What a request does, in order. *)
Inductive Event : Type :=
| EvLock
| EvUnlock
| EvGetWithTTL (key : string)
| EvGet (key : string)
| EvSetWithTTL (key : string) (v : Value) (ttl : Z)
| EvSet (key : string) (v : Value)
| EvRemove (key : string)
| EvRender (status : Z) (message : string)
| EvNext
| EvDial (provider : string)
| EvPendingNonceAt (address : string)
| EvVerifyToken (token : string)
| EvLog (message : string)
| EvPanic.

(** [getClientIPFromRequest].  [None] stands for the panic of an index
    out of range.  [len(parts) - proxyCount] cannot wrap around:
    [proxyCount] is positive there. *)
Definition getClientIPFromRequest (proxyCount : Z) (r : Request)
  : option string :=
  let remote :=
    match SplitHostPort (RemoteAddr r) with
    | inl (remoteIP, _) => Some remoteIP
    | inr _ => Some (RemoteAddr r)
    end in
  if 0 <? proxyCount then
    let xForwardedFor := Header_Get (Header r) "X-Forwarded-For" in
    if negb (String.eqb xForwardedFor "") then
      let xForwardedForParts := Split xForwardedFor "," in
      let partIndex := Z.of_nat (length xForwardedForParts) - proxyCount in
      let partIndex := if partIndex <? 0 then 0 else partIndex in
      TrimSpace <$> xForwardedForParts !! Z.to_nat partIndex
    else remote
  else remote.

(** *** The state a request runs in: the cache and the trace *)

Record World : Type := mkWorld {
  cache : Cache;
  trace : list Event
}.

Definition M (A : Type) : Type := World -> A * World.

#[export] Instance M_ret : MRet M := fun A a w => (a, w).
#[export] Instance M_bind : MBind M :=
  fun A B f m w => let '(a, w') := m w in f a w'.

Definition emit (ev : Event) : M unit :=
  fun w => (tt, mkWorld (cache w) (trace w ++ [ev])).

Definition update (f : Cache -> Cache) : M unit :=
  fun w => (tt, mkWorld (f (cache w)) (trace w)).

Definition read {A : Type} (f : Cache -> A) : M A :=
  fun w => (f (cache w), w).

Definition mutex_Lock : M unit := emit EvLock.
Definition mutex_Unlock : M unit := emit EvUnlock.

Definition cache_GetWithTTL (now : Z) (key : string)
  : M (option (Value * Z)) :=
  emit (EvGetWithTTL key) ;; read (fun c => GetWithTTL c now key).

Definition cache_Get (now : Z) (key : string) : M (option Value) :=
  emit (EvGet key) ;; read (fun c => Get c now key).

Definition cache_SetWithTTL (now : Z) (key : string) (v : Value) (ttl : Z)
  : M unit :=
  emit (EvSetWithTTL key v ttl) ;; update (fun c => SetWithTTL c now key v ttl).

Definition cache_Set (key : string) (v : Value) : M unit :=
  emit (EvSet key v) ;; update (fun c => Set_ c key v).

Definition cache_Remove (key : string) : M unit :=
  emit (EvRemove key) ;; update (fun c => Remove c key).

(** [renderJSON(w, claimResponse{Message: message}, status)]. *)
Definition renderJSON (message : string) (status : Z) : M unit :=
  emit (EvRender status message).

Definition next_ServeHTTP : M unit := emit EvNext.

Definition log_Info (message : string) : M unit := emit (EvLog message).

Definition ethclient_Dial (e : Env) (provider : string) : M bool :=
  emit (EvDial provider) ;; mret (dialOk e).

Definition client_PendingNonceAt (e : Env) (address : string)
  : M (option Z) :=
  emit (EvPendingNonceAt address) ;; mret (pendingNonce e).

Definition rateLimitMessage (ttl : Z) : string :=
  "You have exceeded the rate limit. Please wait "
  ++ Duration.String (Duration.Round ttl Duration.Second)
  ++ " before you try again".

(** [Limiter.limitByKey]. *)
Definition limitByKey (now : Z) (key : string) : M bool :=
  found ← cache_GetWithTTL now key;
  match found with
  | Some (_, ttl) =>
      renderJSON (rateLimitMessage ttl) StatusTooManyRequests ;;
      mret true
  | None => mret false
  end.

Definition nonceKey (address : string) : string := "nonce-" ++ address.

Definition sameNonce (cacheNonce : option Value) (toNonce : Z) : bool :=
  match cacheNonce with
  | Some v => Value_eqb v (VUint64 toNonce)
  | None => false
  end.

(** [Limiter.ServeHTTP]. *)
Definition ServeHTTP (l : Limiter) (e : Env) (r : Request) : M unit :=
  match readAddress e with
  | MalformedRequest status message => renderJSON message status
  | OtherError =>
      renderJSON StatusText_InternalServerError StatusInternalServerError
  | ParsedAddress address =>
      if ttl l <=? 0 then next_ServeHTTP
      else
        match getClientIPFromRequest (proxyCount l) r with
        | None => emit EvPanic
        | Some clientIP =>
            mutex_Lock ;;
            limited ← (byAddress ← limitByKey (now_checkAddress e) address;
                       if (byAddress : bool) then mret true
                       else limitByKey (now_checkClientIP e) clientIP);
            if (limited : bool) then mutex_Unlock
            else
              cache_SetWithTTL (now_setAddress e) address (VBool true) (ttl l) ;;
              cache_SetWithTTL (now_setClientIP e) clientIP (VBool true) (ttl l) ;;
              mutex_Unlock ;;
              connected ← ethclient_Dial e (provider l);
              if negb connected then mret tt
              else
                fetched ← client_PendingNonceAt e address;
                match fetched with
                | None => mret tt
                | Some toNonce =>
                    cacheNonce ← cache_Get (now_getNonce e) (nonceKey address);
                    if sameNonce cacheNonce toNonce then
                      log_Info "Address nonce same as cached nonce" ;;
                      cache_Remove address ;;
                      cache_Remove clientIP ;;
                      renderJSON "Please do not make repeated requests."
                        StatusTooManyRequests
                    else
                      next_ServeHTTP ;;
                      if negb (nextStatus e =? StatusOK) then
                        cache_Remove address ;;
                        cache_Remove clientIP
                      else
                        cache_Set (nonceKey address) (VUint64 toNonce) ;;
                        log_Info "Maximum request limit has been reached"
                end
        end
  end.

(** [Captcha.ServeHTTP].  [verify token] is [Success] in the answer of
    the verification service for [token]; Go looks the header up under
    its canonical name. *)
Definition VerifyToken (verify : string -> bool) (token : string) : M bool :=
  emit (EvVerifyToken token) ;; mret (verify token).

Definition Captcha_ServeHTTP (c : Captcha) (verify : string -> bool)
  (r : Request) : M unit :=
  if String.eqb (secret c) "" then next_ServeHTTP
  else
    success ← VerifyToken verify (Header_Get (Header r) "H-Captcha-Response");
    if negb success then
      renderJSON "Captcha verification failed, please try again"
        StatusTooManyRequests
    else next_ServeHTTP.

(** Serving a request from a given cache: the cache and the trace it
    leaves. *)
Definition serve (l : Limiter) (e : Env) (r : Request) (c : Cache)
  : World :=
  snd (ServeHTTP l e r (mkWorld c [])).

Definition serveCaptcha (k : Captcha) (verify : string -> bool)
  (r : Request) : World :=
  snd (Captcha_ServeHTTP k verify r (mkWorld ∅ [])).

(** The caches a limiter can hold: the empty one of [NewLimiter], and
    what serving a request makes of one of them. *)
Inductive reachable (l : Limiter) : Cache -> Prop :=
| reachable_new : reachable l ∅
| reachable_serve c e r :
    reachable l c -> reachable l (cache (serve l e r c)).

(** *** Names for the stages of [Limiter.ServeHTTP] *)

(** The cache once lines 63 and 64 have run. *)
Definition reserve (l : Limiter) (e : Env) (address clientIP : string)
  (c : Cache) : Cache :=
  SetWithTTL
    (SetWithTTL c (now_setAddress e) address (VBool true) (ttl l))
    (now_setClientIP e) clientIP (VBool true) (ttl l).

(** What an admitted request has done when it releases the mutex on
    line 65. *)
Definition admission (l : Limiter) (address clientIP : string)
  : list Event :=
  [EvLock; EvGetWithTTL address; EvGetWithTTL clientIP;
   EvSetWithTTL address (VBool true) (ttl l);
   EvSetWithTTL clientIP (VBool true) (ttl l); EvUnlock].

(** Lines 67 to 101 of [Limiter.ServeHTTP] once more, on their own: what
    an admitted request goes on to do.  [ServeHTTP_admitted] below shows
    that [ServeHTTP] continues with exactly this. *)
Definition afterReservation (l : Limiter) (e : Env)
  (address clientIP : string) : M unit :=
  connected ← ethclient_Dial e (provider l);
  if negb connected then mret tt
  else
    fetched ← client_PendingNonceAt e address;
    match fetched with
    | None => mret tt
    | Some toNonce =>
        cacheNonce ← cache_Get (now_getNonce e) (nonceKey address);
        if sameNonce cacheNonce toNonce then
          log_Info "Address nonce same as cached nonce" ;;
          cache_Remove address ;;
          cache_Remove clientIP ;;
          renderJSON "Please do not make repeated requests."
            StatusTooManyRequests
        else
          next_ServeHTTP ;;
          if negb (nextStatus e =? StatusOK) then
            cache_Remove address ;;
            cache_Remove clientIP
          else
            cache_Set (nonceKey address) (VUint64 toNonce) ;;
            log_Info "Maximum request limit has been reached"
    end.

Definition duplicateMessage : string :=
  "Please do not make repeated requests.".

(** A call that stores a value under [key]: [Set] or [SetWithTTL]. *)
Definition stores (key : string) (ev : Event) : bool :=
  match ev with
  | EvSetWithTTL k _ _ | EvSet k _ => String.eqb k key
  | _ => false
  end.

(** A call that stores or removes what is under [key]. *)
Definition touches (key : string) (ev : Event) : bool :=
  match ev with
  | EvSetWithTTL k _ _ | EvSet k _ | EvRemove k => String.eqb k key
  | _ => false
  end.

(** The nonce record of [address] is written: some call of the run
    stores a value under its key. *)
Definition nonce_written (w : World) (address : string) : Prop :=
  exists ev, ev ∈ trace w /\ stores (nonceKey address) ev = true.

(** The protected handler was called and left the success status. *)
Definition handler_succeeded (e : Env) (w : World) : Prop :=
  EvNext ∈ trace w /\ nextStatus e = StatusOK.

(** The request was answered with the repeated-request reply. *)
Definition duplicate_detected (w : World) : Prop :=
  EvRender StatusTooManyRequests duplicateMessage ∈ trace w.

(** *** Sample inputs *)

Definition sample_address : string :=
  "0x52908400098527886E0F7030069857D2E4169EE7".

Definition sample_limiter : Limiter :=
  {| proxyCount := 2; ttl := 60 * Duration.Second;
     provider := "http://localhost:8545" |}.

Definition disabled_limiter : Limiter :=
  {| proxyCount := 2; ttl := 0; provider := "http://localhost:8545" |}.

(** A request at second 100 whose ledger query goes as [ledger] says and
    whose handler leaves [status]. *)
Definition sample_env (ledger : bool) (nonce : option Z) (status : Z)
  : Env :=
  {| readAddress := ParsedAddress sample_address;
     dialOk := ledger;
     pendingNonce := nonce;
     nextStatus := status;
     now_checkAddress := 100 * Duration.Second;
     now_checkClientIP := 100 * Duration.Second + 1;
     now_setAddress := 100 * Duration.Second + 2;
     now_setClientIP := 100 * Duration.Second + 3;
     now_getNonce := 101 * Duration.Second |}.

Definition unparsed_env : Env :=
  {| readAddress := OtherError;
     dialOk := true; pendingNonce := Some 0; nextStatus := StatusOK;
     now_checkAddress := 0; now_checkClientIP := 0; now_setAddress := 0;
     now_setClientIP := 0; now_getNonce := 0 |}.

(** A cache in which the sample address is limited for another 41.6
    seconds at second 100. *)
Definition limited_cache : Cache :=
  {[ sample_address :=
       mkItem (VBool true) (Some (141 * Duration.Second + 600000000)) ]}.

(** A cache that holds nonce 5 for the sample address. *)
Definition nonce5_cache : Cache :=
  {[ nonceKey sample_address := mkItem (VUint64 5) None ]}.

Definition forwardedFor (r : Request) : string :=
  Header_Get (Header r) "X-Forwarded-For".

(** The token a request carries for the captcha. *)
Definition token (r : Request) : string :=
  Header_Get (Header r) "H-Captcha-Response".

Definition example_request : Request :=
  {| Header := {[ "X-Forwarded-For" := ["1.1.1.1, 2.2.2.2, 3.3.3.3"] ]};
     RemoteAddr := "9.9.9.9:1234" |}.

End server.

(** ** Requests served concurrently

    The same method as a transition system, one step for each call that
    reads or writes the shared cache or the mutex or that leaves the
    process; the replies and log lines that follow such a call belong to
    its step.  A program point is named after the call it is about to
    make. *)

Module Concurrent.
Import GoStrings GoNet ttlcache server.
Local Open Scope Z_scope.

(** How serving a request ended. *)
Inductive Outcome : Type :=
| ParseFailed        (* reply with the parse error *)
| Disabled           (* TTL <= 0: passed straight to the handler *)
| Panicked
| RateLimited        (* 429 from [limitByKey] *)
| LedgerUnavailable  (* [Dial] or [PendingNonceAt] failed *)
| NonceFlagged       (* 429 for the repeated nonce *)
| RolledBack         (* the handler failed *)
| Committed.         (* the handler succeeded *)

Inductive PC : Type :=
| pStart
| pPassThrough
| pLock
| pCheckAddress
| pCheckClientIP
| pUnlockLimited
| pSetAddress
| pSetClientIP
| pUnlock
| pDial
| pPendingNonce
| pGetNonce
| pEvictAddress
| pEvictClientIP
| pNext
| pRollbackAddress
| pRollbackClientIP
| pSetNonce
| pDone (o : Outcome).

(** A request being served: its collaborators' answers, its program
    point, its local variables and what it has done so far. *)
Record Thread : Type := mkThread {
  t_env : Env;
  t_req : Request;
  t_pc : PC;
  t_address : string;
  t_clientIP : string;
  t_toNonce : Z;
  t_trace : list Event
}.

(** What the requests share: the limiter's cache and its mutex. *)
Record Shared : Type := mkShared {
  s_cache : Cache;
  s_locked : bool
}.

Definition spawn (er : Env * Request) : Thread :=
  mkThread (fst er) (snd er) pStart EmptyString EmptyString 0 [].

Definition advance (t : Thread) (pc : PC) (evs : list Event) : Thread :=
  mkThread (t_env t) (t_req t) pc (t_address t) (t_clientIP t)
    (t_toNonce t) (t_trace t ++ evs).

Definition enter (t : Thread) (pc : PC) (address clientIP : string)
  : Thread :=
  mkThread (t_env t) (t_req t) pc address clientIP (t_toNonce t)
    (t_trace t).

Definition fetched (t : Thread) (pc : PC) (toNonce : Z) (evs : list Event)
  : Thread :=
  mkThread (t_env t) (t_req t) pc (t_address t) (t_clientIP t) toNonce
    (t_trace t ++ evs).

Definition with_cache (s : Shared) (c : Cache) : Shared :=
  mkShared c (s_locked s).

Definition with_lock (s : Shared) (b : bool) : Shared :=
  mkShared (s_cache s) b.

(** One step of one request; [None] when it has returned, or waits for
    the mutex. *)
Definition thread_step (l : Limiter) (t : Thread) (s : Shared)
  : option (Thread * Shared) :=
  let e := t_env t in
  let address := t_address t in
  let clientIP := t_clientIP t in
  match t_pc t with
  | pStart =>
      match readAddress e with
      | MalformedRequest status message =>
          Some (advance t (pDone ParseFailed) [EvRender status message], s)
      | OtherError =>
          Some (advance t (pDone ParseFailed)
                  [EvRender StatusInternalServerError
                     StatusText_InternalServerError], s)
      | ParsedAddress a =>
          if ttl l <=? 0 then Some (enter t pPassThrough a EmptyString, s)
          else
            match getClientIPFromRequest (proxyCount l) (t_req t) with
            | None => Some (advance t (pDone Panicked) [EvPanic], s)
            | Some ip => Some (enter t pLock a ip, s)
            end
      end
  | pPassThrough => Some (advance t (pDone Disabled) [EvNext], s)
  | pLock =>
      if s_locked s then None
      else Some (advance t pCheckAddress [EvLock], with_lock s true)
  | pCheckAddress =>
      match GetWithTTL (s_cache s) (now_checkAddress e) address with
      | Some (_, wait) =>
          Some (advance t pUnlockLimited
                  [EvGetWithTTL address;
                   EvRender StatusTooManyRequests (rateLimitMessage wait)], s)
      | None => Some (advance t pCheckClientIP [EvGetWithTTL address], s)
      end
  | pCheckClientIP =>
      match GetWithTTL (s_cache s) (now_checkClientIP e) clientIP with
      | Some (_, wait) =>
          Some (advance t pUnlockLimited
                  [EvGetWithTTL clientIP;
                   EvRender StatusTooManyRequests (rateLimitMessage wait)], s)
      | None => Some (advance t pSetAddress [EvGetWithTTL clientIP], s)
      end
  | pUnlockLimited =>
      Some (advance t (pDone RateLimited) [EvUnlock], with_lock s false)
  | pSetAddress =>
      Some (advance t pSetClientIP [EvSetWithTTL address (VBool true) (ttl l)],
            with_cache s
              (SetWithTTL (s_cache s) (now_setAddress e) address (VBool true)
                 (ttl l)))
  | pSetClientIP =>
      Some (advance t pUnlock [EvSetWithTTL clientIP (VBool true) (ttl l)],
            with_cache s
              (SetWithTTL (s_cache s) (now_setClientIP e) clientIP
                 (VBool true) (ttl l)))
  | pUnlock => Some (advance t pDial [EvUnlock], with_lock s false)
  | pDial =>
      if dialOk e then Some (advance t pPendingNonce [EvDial (provider l)], s)
      else Some (advance t (pDone LedgerUnavailable) [EvDial (provider l)], s)
  | pPendingNonce =>
      match pendingNonce e with
      | Some toNonce =>
          Some (fetched t pGetNonce toNonce [EvPendingNonceAt address], s)
      | None =>
          Some (advance t (pDone LedgerUnavailable)
                  [EvPendingNonceAt address], s)
      end
  | pGetNonce =>
      if sameNonce (Get (s_cache s) (now_getNonce e) (nonceKey address))
           (t_toNonce t)
      then Some (advance t pEvictAddress
                   [EvGet (nonceKey address);
                    EvLog "Address nonce same as cached nonce"], s)
      else Some (advance t pNext [EvGet (nonceKey address)], s)
  | pEvictAddress =>
      Some (advance t pEvictClientIP [EvRemove address],
            with_cache s (Remove (s_cache s) address))
  | pEvictClientIP =>
      Some (advance t (pDone NonceFlagged)
              [EvRemove clientIP;
               EvRender StatusTooManyRequests
                 "Please do not make repeated requests."],
            with_cache s (Remove (s_cache s) clientIP))
  | pNext =>
      if negb (nextStatus e =? StatusOK)
      then Some (advance t pRollbackAddress [EvNext], s)
      else Some (advance t pSetNonce [EvNext], s)
  | pRollbackAddress =>
      Some (advance t pRollbackClientIP [EvRemove address],
            with_cache s (Remove (s_cache s) address))
  | pRollbackClientIP =>
      Some (advance t (pDone RolledBack) [EvRemove clientIP],
            with_cache s (Remove (s_cache s) clientIP))
  | pSetNonce =>
      Some (advance t (pDone Committed)
              [EvSet (nonceKey address) (VUint64 (t_toNonce t));
               EvLog "Maximum request limit has been reached"],
            with_cache s
              (Set_ (s_cache s) (nonceKey address) (VUint64 (t_toNonce t))))
  | pDone _ => None
  end.

(** The requests in flight and what they share. *)
Record State : Type := mkState {
  pool : list Thread;
  shared : Shared
}.

(** The request at position [i] takes a step. *)
Definition step_at (l : Limiter) (i : nat) (S : State) : option State :=
  match pool S !! i with
  | Some t =>
      match thread_step l t (shared S) with
      | Some (t', s') => Some (mkState (<[i := t']> (pool S)) s')
      | None => None
      end
  | None => None
  end.

Definition step (l : Limiter) (S S' : State) : Prop :=
  exists i, step_at l i S = Some S'.

(** The states an interleaving of the requests can reach. *)
Definition reaches (l : Limiter) : State -> State -> Prop := rtc (step l).

(** Running a schedule: the positions of the requests that step, in
    order. *)
Fixpoint run_schedule (l : Limiter) (sched : list nat) (S : State)
  : option State :=
  match sched with
  | [] => Some S
  | i :: sched' =>
      match step_at l i S with
      | Some S' => run_schedule l sched' S'
      | None => None
      end
  end.

(** A request running alone, for at most [fuel] steps. *)
Fixpoint run_alone (l : Limiter) (fuel : nat) (t : Thread) (s : Shared)
  : Thread * Shared :=
  match fuel with
  | O => (t, s)
  | S fuel' =>
      match thread_step l t s with
      | Some (t', s') => run_alone l fuel' t' s'
      | None => (t, s)
      end
  end.

Definition initial (c : Cache) (ers : list (Env * Request)) : State :=
  mkState (map spawn ers) (mkShared c false).

Definition returned (t : Thread) : bool :=
  match t_pc t with pDone _ => true | _ => false end.

(** Between [Lock] and [Unlock]. *)
Definition in_critical (t : Thread) : bool :=
  match t_pc t with
  | pCheckAddress | pCheckClientIP | pUnlockLimited
  | pSetAddress | pSetClientIP | pUnlock => true
  | _ => false
  end.

(** Where a request with a parsed address stands with respect to the
    reservation, when the limiter is enabled. *)
Inductive Phase : Type :=
| Before        (* has not taken the mutex *)
| Checking      (* holds the mutex, about to look the address up *)
| Passed        (* holds the mutex, the address was not limited *)
| LimitedIn     (* replied 429, still holds the mutex *)
| LimitedOut    (* replied 429 and returned *)
| ReservedIn    (* wrote the address record, still holds the mutex *)
| ReservedOut   (* wrote both records and released the mutex *)
| Removed       (* has removed the address record again *)
| Unreached.    (* not reached with a parsed address and TTL > 0 *)

Definition phase (pc : PC) : Phase :=
  match pc with
  | pStart | pLock => Before
  | pCheckAddress => Checking
  | pCheckClientIP | pSetAddress => Passed
  | pUnlockLimited => LimitedIn
  | pDone RateLimited => LimitedOut
  | pSetClientIP | pUnlock => ReservedIn
  | pDial | pPendingNonce | pGetNonce | pEvictAddress | pNext
  | pRollbackAddress | pSetNonce
  | pDone LedgerUnavailable | pDone Committed => ReservedOut
  | pEvictClientIP | pRollbackClientIP
  | pDone NonceFlagged | pDone RolledBack => Removed
  | pPassThrough | pDone ParseFailed | pDone Disabled | pDone Panicked =>
      Unreached
  end.

Definition critical (ph : Phase) : bool :=
  match ph with
  | Checking | Passed | LimitedIn | ReservedIn => true
  | _ => false
  end.

Definition holds_reservation (ph : Phase) : bool :=
  match ph with
  | ReservedIn | ReservedOut => true
  | _ => false
  end.

Definition wrote (ph : Phase) : bool :=
  match ph with
  | ReservedIn | ReservedOut | Removed => true
  | _ => false
  end.

Definition limited (ph : Phase) : bool :=
  match ph with
  | LimitedIn | LimitedOut => true
  | _ => false
  end.

(** The request went past the reservation step: its trace starts with
    the two lookups, the two writes and the release of the mutex. *)
Definition admitted (l : Limiter) (t : Thread) : Prop :=
  exists rest,
    t_trace t = (admission l (t_address t) (t_clientIP t) ++ rest)%list.

(** The request was turned away by [limitByKey]: all it did was to look
    up one key or both, and to reply 429 with the rate-limit message. *)
Definition rate_limited (t : Thread) : Prop :=
  exists wait,
    t_trace t
    = [EvLock; EvGetWithTTL (t_address t);
       EvRender StatusTooManyRequests (rateLimitMessage wait); EvUnlock]
    \/ t_trace t
       = [EvLock; EvGetWithTTL (t_address t); EvGetWithTTL (t_clientIP t);
          EvRender StatusTooManyRequests (rateLimitMessage wait); EvUnlock].

Definition exactly_one_admitted (l : Limiter) (S : State) : Prop :=
  exists i t,
    pool S !! i = Some t /\ admitted l t
    /\ forall j t', j <> i -> pool S !! j = Some t' -> rate_limited t'.

(** The requests are all for [address]. *)
Definition same_identity (address : string) (ers : list (Env * Request))
  : Prop :=
  Forall (fun er => readAddress (fst er) = ParsedAddress address) ers.

(** Neither the address nor the client address of any of the requests
    is limited in [c] when that request looks it up. *)
Definition unlimited (l : Limiter) (address : string) (c : Cache)
  (ers : list (Env * Request)) : Prop :=
  Forall (fun er =>
            getItem c (now_checkAddress (fst er)) address = None
            /\ forall clientIP,
                getClientIPFromRequest (proxyCount l) (snd er) = Some clientIP ->
                getItem c (now_checkClientIP (fst er)) clientIP = None) ers.

(** Every lookup of the address happens no later than a TTL after any
    of the writes: a record written by one of the requests has not
    expired when another one looks it up. *)
Definition within_ttl (l : Limiter) (ers : list (Env * Request)) : Prop :=
  forall er er',
    er ∈ ers -> er' ∈ ers ->
    now_checkAddress (fst er) <= now_setAddress (fst er') + ttl l
    /\ now_checkAddress (fst er) <= now_setClientIP (fst er') + ttl l.

(** No request has removed the record of [address]. *)
Definition none_removed (address : string) (S : State) : Prop :=
  Forall (fun t => EvRemove address ∉ t_trace t) (pool S).

Definition all_returned (S : State) : Prop :=
  Forall (fun t => returned t = true) (pool S).

(** *** The steps of a request, seen from the reservation

    What a step of a request for [address] from [clientIP] does to its
    phase and to what is shared. *)
Inductive astep (l : Limiter) (address : string) (e : Env) (clientIP : string)
  : Phase -> Shared -> Phase -> Shared -> Prop :=
| as_silent ph s : astep l address e clientIP ph s ph s
| as_lock s :
    s_locked s = false ->
    astep l address e clientIP Before s Checking (with_lock s true)
| as_pass s :
    GetWithTTL (s_cache s) (now_checkAddress e) address = None ->
    astep l address e clientIP Checking s Passed s
| as_limit_address s v wait :
    GetWithTTL (s_cache s) (now_checkAddress e) address = Some (v, wait) ->
    astep l address e clientIP Checking s LimitedIn s
| as_limit_clientIP s v wait :
    GetWithTTL (s_cache s) (now_checkClientIP e) clientIP = Some (v, wait) ->
    astep l address e clientIP Passed s LimitedIn s
| as_unlock_limited s :
    astep l address e clientIP LimitedIn s LimitedOut (with_lock s false)
| as_set_address s :
    astep l address e clientIP Passed s ReservedIn
      (with_cache s
         (SetWithTTL (s_cache s) (now_setAddress e) address (VBool true) (ttl l)))
| as_set_clientIP s :
    astep l address e clientIP ReservedIn s ReservedIn
      (with_cache s
         (SetWithTTL (s_cache s) (now_setClientIP e) clientIP (VBool true)
            (ttl l)))
| as_unlock s :
    astep l address e clientIP ReservedIn s ReservedOut (with_lock s false)
| as_remove_address s :
    astep l address e clientIP ReservedOut s Removed
      (with_cache s (Remove (s_cache s) address))
| as_remove_clientIP s :
    astep l address e clientIP Removed s Removed
      (with_cache s (Remove (s_cache s) clientIP))
| as_set_nonce s n :
    astep l address e clientIP ReservedOut s ReservedOut
      (with_cache s (Set_ (s_cache s) (nonceKey address) (VUint64 n))).

(** A request for [address] at a program point it can reach when the
    limiter is enabled, with its local variables set once it has
    started. *)
Definition wf (l : Limiter) (address : string) (t : Thread) : Prop :=
  readAddress (t_env t) = ParsedAddress address
  /\ phase (t_pc t) <> Unreached
  /\ (t_pc t <> pStart ->
      t_address t = address
      /\ getClientIPFromRequest (proxyCount l) (t_req t) = Some (t_clientIP t)).

(** The trace a request has left at each program point up to the
    release of the mutex, and what is known of it later. *)
Definition traced (l : Limiter) (t : Thread) : Prop :=
  let a := t_address t in
  let ip := t_clientIP t in
  match t_pc t with
  | pStart | pLock => t_trace t = []
  | pCheckAddress => t_trace t = [EvLock]
  | pCheckClientIP => t_trace t = [EvLock; EvGetWithTTL a]
  | pSetAddress => t_trace t = [EvLock; EvGetWithTTL a; EvGetWithTTL ip]
  | pSetClientIP =>
      t_trace t = [EvLock; EvGetWithTTL a; EvGetWithTTL ip;
                   EvSetWithTTL a (VBool true) (ttl l)]
  | pUnlock =>
      t_trace t = [EvLock; EvGetWithTTL a; EvGetWithTTL ip;
                   EvSetWithTTL a (VBool true) (ttl l);
                   EvSetWithTTL ip (VBool true) (ttl l)]
  | pUnlockLimited =>
      exists wait,
        t_trace t
        = [EvLock; EvGetWithTTL a;
           EvRender StatusTooManyRequests (rateLimitMessage wait)]
        \/ t_trace t
           = [EvLock; EvGetWithTTL a; EvGetWithTTL ip;
              EvRender StatusTooManyRequests (rateLimitMessage wait)]
  | pDone RateLimited => rate_limited t
  | pc =>
      match phase pc with
      | ReservedOut => admitted l t
      | Removed => admitted l t /\ EvRemove a ∈ t_trace t
      | _ => True
      end
  end.

(** What holds of the requests for [address] in flight and of the cache
    they share, in every state they reach from the cache [c0]. *)
Record Inv (l : Limiter) (address : string) (c0 : Cache)
  (ers : list (Env * Request)) (S : State) : Prop := mkInv {
  inv_length : length (pool S) = length ers;
  inv_threads :
    forall i t, pool S !! i = Some t ->
      wf l address t /\ traced l t /\ (t_env t, t_req t) ∈ ers;
  inv_exclusive :
    forall i j ti tj,
      pool S !! i = Some ti -> pool S !! j = Some tj ->
      critical (phase (t_pc ti)) = true -> critical (phase (t_pc tj)) = true ->
      i = j;
  inv_unlocked :
    s_locked (shared S) = false ->
    forall i t, pool S !! i = Some t -> critical (phase (t_pc t)) = false;
  inv_untouched :
    (forall i t, pool S !! i = Some t -> wrote (phase (t_pc t)) = false) ->
    s_cache (shared S) = c0;
  inv_limited :
    forall i t, pool S !! i = Some t -> limited (phase (t_pc t)) = true ->
      exists j t', pool S !! j = Some t' /\ wrote (phase (t_pc t')) = true;
  inv_record :
    (forall i t, pool S !! i = Some t -> phase (t_pc t) <> Removed) ->
    forall i t, pool S !! i = Some t ->
      holds_reservation (phase (t_pc t)) = true ->
      exists it,
        s_cache (shared S) !! address = Some it
        /\ forall er, er ∈ ers -> expired (now_checkAddress (fst er)) it = false;
  inv_single :
    (forall i t, pool S !! i = Some t -> phase (t_pc t) <> Removed) ->
    forall i j ti tj,
      pool S !! i = Some ti -> pool S !! j = Some tj ->
      phase (t_pc ti) = Passed \/ holds_reservation (phase (t_pc ti)) = true ->
      phase (t_pc tj) = Passed \/ holds_reservation (phase (t_pc tj)) = true ->
      i = j
}.

(** *** Sample runs *)

(** Two requests for the sample address from different clients, half a
    second apart; the handler of the first fails. *)
Definition racing (status0 : Z) : list (Env * Request) :=
  [ (sample_env true (Some 5) status0, example_request);
    ({| readAddress := ParsedAddress sample_address;
        dialOk := true; pendingNonce := Some 5; nextStatus := StatusOK;
        now_checkAddress := 100 * Duration.Second + 500000000;
        now_checkClientIP := 100 * Duration.Second + 500000001;
        now_setAddress := 100 * Duration.Second + 500000002;
        now_setClientIP := 100 * Duration.Second + 500000003;
        now_getNonce := 101 * Duration.Second + 500000000 |},
     {| Header := ∅; RemoteAddr := "8.8.8.8:4321" |}) ].

(** Both requests arrive; the first runs to its end; the second then
    takes the mutex and runs to its end. *)
Definition first_then_second : list nat :=
  [0; 1; 0; 0; 0; 0; 0; 0; 0; 0; 0; 0; 0; 0;
   1; 1; 1; 1; 1; 1; 1; 1; 1; 1; 1]%nat.

(** Both requests arrive; the first runs to its end; the second then
    finds the address limited. *)
Definition first_blocks_second : list nat :=
  [0; 1; 0; 0; 0; 0; 0; 0; 0; 0; 0; 0; 0; 1; 1; 1]%nat.

Definition run_to (l : Limiter) (sched : list nat) (S : State) : State :=
  match run_schedule l sched S with
  | Some S' => S'
  | None => S
  end.

End Concurrent.

(** ** The address resolver as the specification words it

    [Resolve proxyCount forwardedFor remote]: without trusted proxies or
    without a forwarded-for value, the host portion of the remote socket
    address; otherwise the header is split on commas, every token is
    trimmed, and the token at index [max 0 (len tokens - proxyCount)] is
    selected. *)

Module Spec.
Import GoStrings GoNet.
Local Open Scope Z_scope.

(** The host of a host:port pair; the raw value when it is not one. *)
Definition hostPortion (remote : string) : string :=
  match SplitHostPort remote with
  | inl (host, _) => host
  | inr _ => remote
  end.

Definition Resolve (proxyCount : Z) (forwardedFor remote : string)
  : string :=
  if (proxyCount <=? 0) || String.eqb forwardedFor "" then
    hostPortion remote
  else
    let tokens := map TrimSpace (Split forwardedFor ",") in
    nth (Z.to_nat (Z.max 0 (Z.of_nat (length tokens) - proxyCount)))
      tokens EmptyString.

(** A host or port free of colons and brackets. *)
Definition plain (s : string) : Prop :=
  IndexByte s ":" = None /\ IndexByte s "[" = None /\ IndexByte s "]" = None.

End Spec.

(** ** The constructor, runs of several requests, and the mutex *)

Module Serving.
Import GoStrings GoNet ttlcache server Concurrent.
Local Open Scope Z_scope.

(** [NewLimiter]: the limiter, and the cache [ttlcache.NewCache()] it
    starts with; the extension of a TTL on a hit is switched off, which is
    the cache modelled in [ttlcache]. *)
Definition NewLimiter (proxyCount ttl : Z) (provider : string)
  : Limiter * Cache :=
  ({| proxyCount := proxyCount; ttl := ttl; provider := provider |}, ∅).

(** The cache after the requests of [ers] have been served one after the
    other by [Limiter.ServeHTTP]. *)
Fixpoint serve_all (l : Limiter) (ers : list (Env * Request)) (c : Cache)
  : Cache :=
  match ers with
  | [] => c
  | er :: rest => serve_all l rest (cache (serve l (fst er) (snd er) c))
  end.

(** A request that [limitByKey] turns away from the cache [c]: its
    address or its client address has a live record when it is looked
    up. *)
Definition turned_away (l : Limiter) (c : Cache) (er : Env * Request)
  : Prop :=
  exists address clientIP,
    readAddress (fst er) = ParsedAddress address
    /\ getClientIPFromRequest (proxyCount l) (snd er) = Some clientIP
    /\ (is_Some (getItem c (now_checkAddress (fst er)) address)
        \/ is_Some (getItem c (now_checkClientIP (fst er)) clientIP)).

(** The calls that leave the process. *)
Definition external (ev : Event) : bool :=
  match ev with
  | EvDial _ | EvPendingNonceAt _ | EvNext | EvVerifyToken _ => true
  | _ => false
  end.

(** The lookups and writes of the reservation. *)
Definition reserving (ev : Event) : bool :=
  match ev with
  | EvGetWithTTL _ | EvSetWithTTL _ _ _ => true
  | _ => false
  end.

(** A trace keeps the discipline of the mutex, [held] telling whether it
    is held at the start: [Lock] only when it is free and [Unlock] only
    when it is held; the lookups and writes of the reservation only
    while it is held; no call that leaves the process while it is held;
    and it is free at the end. *)
Fixpoint lock_discipline (held : bool) (tr : list Event) : bool :=
  match tr with
  | [] => negb held
  | EvLock :: tr' => negb held && lock_discipline true tr'
  | EvUnlock :: tr' => held && lock_discipline false tr'
  | ev :: tr' =>
      (if reserving ev then held else true)
      && (if external ev then negb held else true)
      && lock_discipline held tr'
  end.

(** The number of steps a request has left at most. *)
Definition rank (pc : PC) : nat :=
  match pc with
  | pStart => 13
  | pLock => 12
  | pCheckAddress => 11
  | pCheckClientIP => 10
  | pSetAddress => 9
  | pSetClientIP => 8
  | pUnlock => 7
  | pDial => 6
  | pPendingNonce => 5
  | pGetNonce => 4
  | pNext => 3
  | pEvictAddress | pRollbackAddress => 2
  | pPassThrough | pUnlockLimited | pEvictClientIP | pRollbackClientIP
  | pSetNonce => 1
  | pDone _ => 0
  end%nat.

Definition steps_left (ts : list Thread) : nat :=
  foldr (fun t n => (rank (t_pc t) + n)%nat) 0%nat ts.

(** The mutex and the requests between [Lock] and [Unlock]. *)
Record LockInv (S : State) : Prop := mkLockInv {
  lock_held :
    s_locked (shared S) = true ->
    exists i t, pool S !! i = Some t /\ in_critical t = true;
  lock_free :
    s_locked (shared S) = false ->
    forall i t, pool S !! i = Some t -> in_critical t = false;
  lock_one :
    forall i j ti tj,
      pool S !! i = Some ti -> pool S !! j = Some tj ->
      in_critical ti = true -> in_critical tj = true -> i = j
}.

(** *** The ways [Limiter.ServeHTTP] serves a request

    [passes l e r c address clientIP]: the limiter is enabled, the request
    is for [address] from [clientIP], and neither is limited in [c] when
    it is looked up. *)
Definition passes (l : Limiter) (e : Env) (r : Request) (c : Cache)
  (address clientIP : string) : Prop :=
  0 < ttl l
  /\ readAddress e = ParsedAddress address
  /\ getClientIPFromRequest (proxyCount l) r = Some clientIP
  /\ getItem c (now_checkAddress e) address = None
  /\ getItem c (now_checkClientIP e) clientIP = None.

(** The cache and the trace a request leaves, path by path. *)
Inductive Served (l : Limiter) (e : Env) (r : Request) (c : Cache)
  : World -> Prop :=
| served_malformed status message :
    readAddress e = MalformedRequest status message ->
    Served l e r c (mkWorld c [EvRender status message])
| served_other_error :
    readAddress e = OtherError ->
    Served l e r c
      (mkWorld c [EvRender StatusInternalServerError
                    StatusText_InternalServerError])
| served_disabled address :
    readAddress e = ParsedAddress address -> ttl l <= 0 ->
    Served l e r c (mkWorld c [EvNext])
| served_limited_address address clientIP it :
    0 < ttl l -> readAddress e = ParsedAddress address ->
    getClientIPFromRequest (proxyCount l) r = Some clientIP ->
    getItem c (now_checkAddress e) address = Some it ->
    Served l e r c
      (mkWorld c [EvLock; EvGetWithTTL address;
                  EvRender StatusTooManyRequests
                    (rateLimitMessage (remaining (now_checkAddress e) it));
                  EvUnlock])
| served_limited_clientIP address clientIP it :
    0 < ttl l -> readAddress e = ParsedAddress address ->
    getClientIPFromRequest (proxyCount l) r = Some clientIP ->
    getItem c (now_checkAddress e) address = None ->
    getItem c (now_checkClientIP e) clientIP = Some it ->
    Served l e r c
      (mkWorld c [EvLock; EvGetWithTTL address; EvGetWithTTL clientIP;
                  EvRender StatusTooManyRequests
                    (rateLimitMessage (remaining (now_checkClientIP e) it));
                  EvUnlock])
| served_dial_failed address clientIP :
    passes l e r c address clientIP ->
    dialOk e = false ->
    Served l e r c
      (mkWorld (reserve l e address clientIP c)
         (admission l address clientIP ++ [EvDial (provider l)]))
| served_nonce_failed address clientIP :
    passes l e r c address clientIP ->
    dialOk e = true -> pendingNonce e = None ->
    Served l e r c
      (mkWorld (reserve l e address clientIP c)
         (admission l address clientIP
          ++ [EvDial (provider l); EvPendingNonceAt address]))
| served_duplicate address clientIP toNonce :
    passes l e r c address clientIP ->
    dialOk e = true -> pendingNonce e = Some toNonce ->
    Get (reserve l e address clientIP c) (now_getNonce e) (nonceKey address)
    = Some (VUint64 toNonce) ->
    Served l e r c
      (mkWorld (Remove (Remove (reserve l e address clientIP c) address)
                  clientIP)
         (admission l address clientIP
          ++ [EvDial (provider l); EvPendingNonceAt address;
              EvGet (nonceKey address);
              EvLog "Address nonce same as cached nonce";
              EvRemove address; EvRemove clientIP;
              EvRender StatusTooManyRequests duplicateMessage]))
| served_rolled_back address clientIP toNonce :
    passes l e r c address clientIP ->
    dialOk e = true -> pendingNonce e = Some toNonce ->
    Get (reserve l e address clientIP c) (now_getNonce e) (nonceKey address)
    <> Some (VUint64 toNonce) ->
    nextStatus e <> StatusOK ->
    Served l e r c
      (mkWorld (Remove (Remove (reserve l e address clientIP c) address)
                  clientIP)
         (admission l address clientIP
          ++ [EvDial (provider l); EvPendingNonceAt address;
              EvGet (nonceKey address); EvNext;
              EvRemove address; EvRemove clientIP]))
| served_committed address clientIP toNonce :
    passes l e r c address clientIP ->
    dialOk e = true -> pendingNonce e = Some toNonce ->
    Get (reserve l e address clientIP c) (now_getNonce e) (nonceKey address)
    <> Some (VUint64 toNonce) ->
    nextStatus e = StatusOK ->
    Served l e r c
      (mkWorld (Set_ (reserve l e address clientIP c) (nonceKey address)
                  (VUint64 toNonce))
         (admission l address clientIP
          ++ [EvDial (provider l); EvPendingNonceAt address;
              EvGet (nonceKey address); EvNext;
              EvSet (nonceKey address) (VUint64 toNonce);
              EvLog "Maximum request limit has been reached"])).

(** *** More sample inputs *)

Definition malformed_env : Env :=
  {| readAddress := MalformedRequest 400 "invalid address";
     dialOk := true; pendingNonce := Some 0; nextStatus := StatusOK;
     now_checkAddress := 0; now_checkClientIP := 0; now_setAddress := 0;
     now_setClientIP := 0; now_getNonce := 0 |}.

(** A request for [address] at second [sec], fetching nonce [nonce], whose
    handler leaves [status]. *)
Definition env_at (sec : Z) (address : string) (nonce : Z) (status : Z)
  : Env :=
  {| readAddress := ParsedAddress address;
     dialOk := true;
     pendingNonce := Some nonce;
     nextStatus := status;
     now_checkAddress := sec * Duration.Second;
     now_checkClientIP := sec * Duration.Second + 1;
     now_setAddress := sec * Duration.Second + 2;
     now_setClientIP := sec * Duration.Second + 3;
     now_getNonce := (sec + 1) * Duration.Second |}.

Definition other_address : string :=
  "0xde709f2102306220921060314715629080e2fb77".

Definition request_from (remote : string) : Request :=
  {| Header := ∅; RemoteAddr := remote |}.

Definition forwarded (xff remote : string) : Request :=
  {| Header := {[ "X-Forwarded-For" := [xff] ]}; RemoteAddr := remote |}.

(** What the limiter keeps in its cache: marks that expire, written by
    [SetWithTTL(key, true, l.ttl)], and nonces that do not, written by
    [Set("nonce-"+address, toNonce)]. *)
Definition well_kept (c : Cache) : Prop :=
  forall key it,
    c !! key = Some it ->
    (exists t, it = mkItem (VBool true) (Some t))
    \/ (exists address n,
           key = nonceKey address /\ it = mkItem (VUint64 n) None).

(** The first of two racing requests has taken the mutex and looked its
    address up; the second has read its address. *)
Definition first_holds_mutex : list nat := [0; 1; 0; 0]%nat.

(** *** A record without expiry, and the requests in flight

    The cache holds under [key] a record without expiry: [it], or a
    nonce that [Set] stored since. *)
Definition kept (key : string) (it : Item) (c : Cache) : Prop :=
  exists it',
    c !! key = Some it' /\ expireAt it' = None
    /\ (it' = it \/ exists n, it' = mkItem (VUint64 n) None).

(** A request that has passed a lookup of [limitByKey] did not look
    [key] up there. *)
Definition clear_of (key : string) (t : Thread) : Prop :=
  match t_pc t with
  | pStart | pPassThrough | pLock | pCheckAddress | pUnlockLimited
  | pDone _ => True
  | pCheckClientIP => t_address t <> key
  | _ => t_address t <> key /\ t_clientIP t <> key
  end.

(** A request for another address whose client address, sent through two
    proxies, is the nonce key of [sample_address]; its handler fails. *)
Definition nonce_key_client : Env * Request :=
  (env_at 100 other_address 7 StatusInternalServerError,
   forwarded (nonceKey sample_address ++ ", 3.3.3.3")%string "9.9.9.9:1234").

(** The second request is admitted; the first then runs to its end and
    stores its nonce; the second goes on, its handler fails, and it
    removes its two keys. *)
Definition removal_in_flight : list nat :=
  [1; 1; 1; 1; 1; 1; 1;
   0; 0; 0; 0; 0; 0; 0; 0; 0; 0; 0; 0;
   1; 1; 1; 1; 1; 1]%nat.

(** The second request finds the nonce record under its client address
    and is turned away while the first is being served. *)
Definition nonce_key_refused : list nat :=
  [1; 1; 1; 0; 1; 1; 0; 0; 0; 0; 0; 0; 0; 0; 0; 0; 0]%nat.

End Serving.

(** ** Tactics for running the model *)

Ltac run_M :=
  unfold server.limitByKey, server.afterReservation,
    server.cache_GetWithTTL, server.cache_Get, server.cache_SetWithTTL,
    server.cache_Set, server.cache_Remove, server.renderJSON,
    server.next_ServeHTTP, server.log_Info, server.ethclient_Dial,
    server.client_PendingNonceAt, server.VerifyToken, server.mutex_Lock,
    server.mutex_Unlock, server.emit, server.update, server.read,
    mbind, server.M_bind, mret, server.M_ret;
  cbn.

(** Membership of an event in a trace that is written out. *)
Ltac not_in_trace :=
  let H := fresh in
  intros H; exfalso;
  repeat (apply elem_of_app in H as [H|H]);
  repeat (apply elem_of_cons in H as [H|H]; [discriminate H|]);
  solve [apply elem_of_nil in H; exact H].

Ltac in_trace :=
  repeat (apply elem_of_app; right);
  repeat first [apply list_elem_of_here | apply list_elem_of_further].

(** The cases of one step of a request. *)
Ltac step_cases t Hstep :=
  destruct t as [e r pc a ip n tr]; unfold Concurrent.thread_step in Hstep;
  cbn -[ttlcache.SetWithTTL ttlcache.Remove ttlcache.Set_ ttlcache.GetWithTTL
        ttlcache.Get server.getClientIPFromRequest] in Hstep;
  destruct pc;
  repeat match goal with
    | H' : context [match ?x with _ => _ end] |- _ => destruct x eqn:?
    end;
  try discriminate;
  match goal with H : Some _ = Some _ |- _ => injection H as <- <- end;
  cbn.

(** * Properties *)

(** ** The library models on known values *)

Example SplitHostPort_ex1 : GoNet.SplitHostPort "9.9.9.9:1234" = inl ("9.9.9.9", "1234").
Proof. reflexivity. Qed.
Example SplitHostPort_ex2 : GoNet.SplitHostPort "[::1]:80" = inl ("::1", "80").
Proof. reflexivity. Qed.
Example SplitHostPort_ex3 : GoNet.SplitHostPort "::1" = inr GoNet.tooManyColons.
Proof. reflexivity. Qed.
Example SplitHostPort_ex4 : GoNet.SplitHostPort "localhost" = inr GoNet.missingPort.
Proof. reflexivity. Qed.
Example SplitHostPort_ex5 : GoNet.SplitHostPort "[::1]" = inr GoNet.missingPort.
Proof. reflexivity. Qed.
Example SplitHostPort_ex6 : GoNet.SplitHostPort "[a]b:80" = inr GoNet.missingPort.
Proof. reflexivity. Qed.
Example SplitHostPort_ex7 : GoNet.SplitHostPort "a]:80" = inr GoNet.unexpectedCloseBracket.
Proof. reflexivity. Qed.
Example Dur_ex1 : Duration.String (Duration.Round 41600000000 Duration.Second) = "42s".
Proof. reflexivity. Qed.
Example Dur_ex2 : Duration.String 5400000000000 = "1h30m0s".
Proof. reflexivity. Qed.
Example Dur_ex3 : Duration.String Duration.maxDuration = "2562047h47m16.854775807s".
Proof. reflexivity. Qed.
Example Dur_ex4 : Duration.String 1500000 = "1.5ms".
Proof. reflexivity. Qed.
Example Dur_ex5 : Duration.String 0 = "0s".
Proof. reflexivity. Qed.
Example Dur_ex6 : Duration.String 90000000000 = "1m30s".
Proof. reflexivity. Qed.
Example TrimSpace_ex1 : GoStrings.TrimSpace " 2.2.2.2" = "2.2.2.2".
Proof. reflexivity. Qed.
Example TrimSpace_ex2 :
  GoStrings.TrimSpace (GoStrings.bytes [9; 194; 160; 97; 32; 98; 226; 128; 137; 13]%nat)
  = "a b".
Proof. reflexivity. Qed.
Example Split_ex : GoStrings.Split "1.1.1.1, 2.2.2.2,,3" "," = ["1.1.1.1"; " 2.2.2.2"; ""; "3"].
Proof. reflexivity. Qed.

(** ** Strings *)

Section StringFacts.
Import GoStrings GoNet.

Lemma byte_eqb_refl a : byte_eqb a a = true.
Proof. apply Ascii.eqb_refl. Qed.

Lemma Split_length_pos s sep : (1 <= length (Split s sep))%nat.
Proof.
  induction s as [|a s IH]; simpl; [lia|].
  destruct (byte_eqb a sep); simpl; [lia|].
  destruct (Split s sep); simpl in *; lia.
Qed.

Lemma IndexByte_None_Last s c :
  IndexByte s c = None -> LastIndexByte s c = None.
Proof.
  induction s as [|a s IH]; simpl; [done|].
  destruct (byte_eqb a c); [done|].
  destruct (IndexByte s c); [done|].
  intros _. by rewrite IH.
Qed.

Lemma IndexByte_app_None s1 s2 c :
  IndexByte s1 c = None -> IndexByte s2 c = None ->
  IndexByte (s1 ++ s2) c = None.
Proof.
  induction s1 as [|a s1 IH]; simpl; [done|].
  destruct (byte_eqb a c); [done|].
  destruct (IndexByte s1 c); [done|].
  intros _ H2. by rewrite IH.
Qed.

Lemma LastIndexByte_sep host port c :
  IndexByte port c = None ->
  LastIndexByte (host ++ String c port) c = Some (String.length host).
Proof.
  intros Hp. induction host as [|a host IH]; simpl.
  - by rewrite (IndexByte_None_Last _ _ Hp), byte_eqb_refl.
  - by rewrite IH.
Qed.

Lemma take_bytes_app s1 s2 : take_bytes (String.length s1) (s1 ++ s2) = s1.
Proof.
  induction s1 as [|a s1 IH]; simpl; [by destruct s2|]. by rewrite IH.
Qed.

Lemma drop_bytes_sep s1 c s2 :
  drop_bytes (String.length s1 + 1) (s1 ++ String c s2) = s2.
Proof. induction s1 as [|a s1 IH]; simpl; [done|]. apply IH. Qed.

Lemma first_byte_not host c d s :
  IndexByte host c = None -> byte_eqb d c = false ->
  is_byte (byte_at 0 (host ++ String d s)) c = false.
Proof.
  destruct host as [|a host]; simpl; [done|].
  destruct (byte_eqb a c); [done|]. done.
Qed.

(** A plain host followed by a colon and a plain port splits into the
    two. *)
Lemma SplitHostPort_plain host port :
  Spec.plain host -> Spec.plain port ->
  SplitHostPort (host ++ String ":" port) = inl (host, port).
Proof.
  intros (Hh1 & Hh2 & Hh3) (Hp1 & Hp2 & Hp3). unfold SplitHostPort.
  rewrite (LastIndexByte_sep _ _ _ Hp1).
  rewrite (first_byte_not host "[" ":" port Hh2 eq_refl).
  rewrite take_bytes_app, Hh1. simpl. unfold finish. simpl.
  rewrite (IndexByte_app_None host (String ":" port) "[" Hh2)
    by (simpl; by rewrite Hp2).
  rewrite (IndexByte_app_None host (String ":" port) "]" Hh3)
    by (simpl; by rewrite Hp3).
  simpl. by rewrite drop_bytes_sep.
Qed.

Lemma hostPortion_no_colon remote :
  IndexByte remote ":" = None -> Spec.hostPortion remote = remote.
Proof.
  intros H. unfold Spec.hostPortion, SplitHostPort.
  by rewrite (IndexByte_None_Last _ _ H).
Qed.

End StringFacts.

(** ** Client address resolution *)

Section Resolver.
Import GoStrings GoNet server.
Local Open Scope Z_scope.

(** The clamped index is a position of the list of parts: the indexing
    of [getClientIPFromRequest] never goes out of range. *)
Lemma partIndex_in_range (pc : Z) (xff : string) :
  0 < pc ->
  exists tok,
    Split xff "," !! Z.to_nat (Z.max 0 (Z.of_nat (length (Split xff ",")) - pc))
    = Some tok.
Proof.
  intros Hpc. apply lookup_lt_is_Some_2.
  pose proof (Split_length_pos xff ","). lia.
Qed.

Lemma clamp_max (i : Z) : (if i <? 0 then 0 else i) = Z.max 0 i.
Proof. destruct (Z.ltb_spec i 0); lia. Qed.

Lemma getClientIPFromRequest_remote pc r :
  pc <= 0 \/ forwardedFor r = "" ->
  getClientIPFromRequest pc r = Some (Spec.hostPortion (RemoteAddr r)).
Proof.
  intros H. unfold getClientIPFromRequest, Spec.hostPortion.
  fold (forwardedFor r).
  assert (Hr : match SplitHostPort (RemoteAddr r) with
               | inl (remoteIP, _) => Some remoteIP
               | inr _ => Some (RemoteAddr r)
               end
               = Some match SplitHostPort (RemoteAddr r) with
                      | inl (host, _) => host
                      | inr _ => RemoteAddr r
                      end)
    by (destruct (SplitHostPort (RemoteAddr r)) as [[? ?]|?]; done).
  destruct (Z.ltb_spec 0 pc); [|done].
  destruct H as [H|H]; [lia|]. by rewrite H.
Qed.

Lemma getClientIPFromRequest_forwarded pc r :
  0 < pc -> forwardedFor r <> "" ->
  exists tok,
    Split (forwardedFor r) ","
      !! Z.to_nat (Z.max 0 (Z.of_nat (length (Split (forwardedFor r) ",")) - pc))
    = Some tok
    /\ getClientIPFromRequest pc r = Some (TrimSpace tok).
Proof.
  intros Hpc Hx. destruct (partIndex_in_range pc (forwardedFor r) Hpc) as [tok Htok].
  exists tok. split; [done|].
  unfold getClientIPFromRequest. fold (forwardedFor r).
  destruct (Z.ltb_spec 0 pc); [|lia].
  destruct (String.eqb_spec (forwardedFor r) ""); [done|]. simpl.
  rewrite clamp_max, Htok. done.
Qed.

Lemma getClientIPFromRequest_total pc r :
  exists clientIP, getClientIPFromRequest pc r = Some clientIP.
Proof.
  destruct (Z.ltb_spec 0 pc).
  - destruct (String.eqb_spec (forwardedFor r) "") as [E|E].
    + eexists. apply getClientIPFromRequest_remote. by right.
    + destruct (getClientIPFromRequest_forwarded pc r) as (tok & _ & ->); eauto.
  - eexists. apply getClientIPFromRequest_remote. left. lia.
Qed.

Lemma getClientIPFromRequest_Resolve pc r :
  getClientIPFromRequest pc r
  = Some (Spec.Resolve pc (forwardedFor r) (RemoteAddr r)).
Proof.
  unfold Spec.Resolve.
  destruct (Z.leb_spec pc 0) as [Hle|Hlt]; simpl.
  { apply getClientIPFromRequest_remote. by left. }
  destruct (String.eqb_spec (forwardedFor r) "") as [E|E].
  { apply getClientIPFromRequest_remote. by right. }
  destruct (getClientIPFromRequest_forwarded pc r Hlt E) as (tok & Htok & ->).
  f_equal. rewrite length_map.
  change EmptyString with (TrimSpace EmptyString) at 1.
  rewrite map_nth. f_equal.
  rewrite nth_lookup, Htok. done.
Qed.

(** C5.  [getClientIPFromRequest] computes the specified resolver: with
    [proxyCount <= 0], or the forwarded-for header absent or empty, the
    host portion of the remote address, which is the raw value when it
    holds no colon and the host of a plain host:port pair; with
    [proxyCount > 0] and a non-empty header, the trimmed token at index
    [max 0 (len tokens - proxyCount)] of the header split on commas.
    The three worked examples evaluate to 2.2.2.2, 1.1.1.1 and
    9.9.9.9. *)
Theorem getClientIPFromRequest_spec :
  (forall pc r,
      getClientIPFromRequest pc r
      = Some (Spec.Resolve pc (forwardedFor r) (RemoteAddr r)))
  /\ (forall pc r,
         pc <= 0 \/ Header r !! "X-Forwarded-For" = None \/ forwardedFor r = "" ->
         getClientIPFromRequest pc r = Some (Spec.hostPortion (RemoteAddr r)))
  /\ (forall remote,
         IndexByte remote ":" = None -> Spec.hostPortion remote = remote)
  /\ (forall host port,
         Spec.plain host -> Spec.plain port ->
         Spec.hostPortion (host ++ String ":" port) = host)
  /\ (forall pc r,
         0 < pc -> forwardedFor r <> "" ->
         exists tok,
           Split (forwardedFor r) ","
             !! Z.to_nat (Z.max 0 (Z.of_nat (length (Split (forwardedFor r) ",")) - pc))
           = Some tok
           /\ getClientIPFromRequest pc r = Some (TrimSpace tok))
  /\ getClientIPFromRequest 2 example_request = Some "2.2.2.2"
  /\ getClientIPFromRequest 5 example_request = Some "1.1.1.1"
  /\ getClientIPFromRequest 0 example_request = Some "9.9.9.9".
Proof.
  split; [exact getClientIPFromRequest_Resolve|].
  split.
  { intros pc r [H|[H|H]]; apply getClientIPFromRequest_remote; auto.
    right. unfold forwardedFor, Header_Get. by rewrite H. }
  split; [exact hostPortion_no_colon|].
  split.
  { intros host port Hh Hp. unfold Spec.hostPortion.
    by rewrite SplitHostPort_plain. }
  split; [exact getClientIPFromRequest_forwarded|].
  repeat split; vm_compute; reflexivity.
Qed.

Lemma getClientIPFromRequest_spec_witness :
  Spec.hostPortion "localhost" = "localhost"
  /\ Spec.hostPortion ("example.org" ++ String ":" "8080") = "example.org"
  /\ getClientIPFromRequest 1 example_request = Some "3.3.3.3".
Proof.
  destruct getClientIPFromRequest_spec as (HR & _ & Hraw & Hplain & Hfwd & _).
  split; [apply Hraw; reflexivity|].
  split; [apply Hplain; repeat split; reflexivity|].
  rewrite HR. vm_compute. reflexivity.
Defined.

End Resolver.

(** ** One request at a time: the paths through [Limiter.ServeHTTP] *)

Section Paths.
Import ttlcache server.
Local Open Scope Z_scope.

Variables (l : Limiter) (e : Env) (r : Request).
Variables (address clientIP : string).
Hypothesis Henabled : 0 < ttl l.
Hypothesis Haddress : readAddress e = ParsedAddress address.
Hypothesis HclientIP :
  getClientIPFromRequest (proxyCount l) r = Some clientIP.

Lemma ServeHTTP_limited_address c v wait :
  GetWithTTL c (now_checkAddress e) address = Some (v, wait) ->
  serve l e r c
  = mkWorld c [EvLock; EvGetWithTTL address;
               EvRender StatusTooManyRequests (rateLimitMessage wait);
               EvUnlock].
Proof using Henabled Haddress HclientIP.
  intros H1. unfold serve, ServeHTTP. rewrite Haddress, HclientIP.
  destruct (Z.leb_spec (ttl l) 0); [lia|].
  run_M. rewrite H1. reflexivity.
Qed.

Lemma ServeHTTP_limited_clientIP c v wait :
  GetWithTTL c (now_checkAddress e) address = None ->
  GetWithTTL c (now_checkClientIP e) clientIP = Some (v, wait) ->
  serve l e r c
  = mkWorld c [EvLock; EvGetWithTTL address; EvGetWithTTL clientIP;
               EvRender StatusTooManyRequests (rateLimitMessage wait);
               EvUnlock].
Proof using Henabled Haddress HclientIP.
  intros H1 H2. unfold serve, ServeHTTP. rewrite Haddress, HclientIP.
  destruct (Z.leb_spec (ttl l) 0); [lia|].
  run_M. rewrite H1. cbn. rewrite H2. reflexivity.
Qed.

Lemma ServeHTTP_admitted c :
  GetWithTTL c (now_checkAddress e) address = None ->
  GetWithTTL c (now_checkClientIP e) clientIP = None ->
  ServeHTTP l e r (mkWorld c [])
  = afterReservation l e address clientIP
      (mkWorld (reserve l e address clientIP c)
         (admission l address clientIP)).
Proof using Henabled Haddress HclientIP.
  intros H1 H2. unfold ServeHTTP. rewrite Haddress, HclientIP.
  destruct (Z.leb_spec (ttl l) 0); [lia|].
  run_M. rewrite H1. cbn. rewrite H2. cbn. reflexivity.
Qed.

Lemma afterReservation_dial_failed c tr :
  dialOk e = false ->
  (afterReservation l e address clientIP (mkWorld c tr)).2
  = mkWorld c (tr ++ [EvDial (provider l)]).
Proof. intros H. run_M. rewrite H. reflexivity. Qed.

Lemma afterReservation_nonce_failed c tr :
  dialOk e = true -> pendingNonce e = None ->
  (afterReservation l e address clientIP (mkWorld c tr)).2
  = mkWorld c (tr ++ [EvDial (provider l); EvPendingNonceAt address]).
Proof.
  intros H1 H2. run_M. rewrite H1, H2. cbn.
  by rewrite <- app_assoc.
Qed.

Lemma afterReservation_duplicate c tr toNonce :
  dialOk e = true -> pendingNonce e = Some toNonce ->
  sameNonce (Get c (now_getNonce e) (nonceKey address)) toNonce = true ->
  (afterReservation l e address clientIP (mkWorld c tr)).2
  = mkWorld (Remove (Remove c address) clientIP)
      (tr ++ [EvDial (provider l); EvPendingNonceAt address;
              EvGet (nonceKey address);
              EvLog "Address nonce same as cached nonce";
              EvRemove address; EvRemove clientIP;
              EvRender StatusTooManyRequests duplicateMessage]).
Proof.
  intros H1 H2 H3. run_M. rewrite H1, H2. cbn. rewrite H3. cbn.
  by rewrite <- !app_assoc.
Qed.

Lemma afterReservation_handler_failed c tr toNonce :
  dialOk e = true -> pendingNonce e = Some toNonce ->
  sameNonce (Get c (now_getNonce e) (nonceKey address)) toNonce = false ->
  nextStatus e <> StatusOK ->
  (afterReservation l e address clientIP (mkWorld c tr)).2
  = mkWorld (Remove (Remove c address) clientIP)
      (tr ++ [EvDial (provider l); EvPendingNonceAt address;
              EvGet (nonceKey address); EvNext;
              EvRemove address; EvRemove clientIP]).
Proof.
  intros H1 H2 H3 H4. run_M. rewrite H1, H2. cbn. rewrite H3. cbn.
  destruct (Z.eqb_spec (nextStatus e) StatusOK); [done|]. cbn.
  by rewrite <- !app_assoc.
Qed.

Lemma afterReservation_handler_succeeded c tr toNonce :
  dialOk e = true -> pendingNonce e = Some toNonce ->
  sameNonce (Get c (now_getNonce e) (nonceKey address)) toNonce = false ->
  nextStatus e = StatusOK ->
  (afterReservation l e address clientIP (mkWorld c tr)).2
  = mkWorld (Set_ c (nonceKey address) (VUint64 toNonce))
      (tr ++ [EvDial (provider l); EvPendingNonceAt address;
              EvGet (nonceKey address); EvNext;
              EvSet (nonceKey address) (VUint64 toNonce);
              EvLog "Maximum request limit has been reached"]).
Proof.
  intros H1 H2 H3 H4. run_M. rewrite H1, H2. cbn. rewrite H3. cbn.
  rewrite H4. cbn. by rewrite <- !app_assoc.
Qed.

End Paths.

(** ** The cache *)

Section CacheFacts.
Import ttlcache server.
Local Open Scope Z_scope.

Lemma GetWithTTL_getItem_Some c now key it :
  getItem c now key = Some it ->
  GetWithTTL c now key = Some (data it, remaining now it).
Proof. intros H. unfold GetWithTTL. by rewrite H. Qed.

Lemma GetWithTTL_getItem_None c now key :
  getItem c now key = None -> GetWithTTL c now key = None.
Proof. intros H. unfold GetWithTTL. by rewrite H. Qed.

Lemma getItem_absent (c : Cache) now key :
  c !! key = None -> getItem c now key = None.
Proof. intros H. unfold getItem. by rewrite H. Qed.


Lemma getItem_live (c : Cache) now key it :
  c !! key = Some it -> expired now it = false -> getItem c now key = Some it.
Proof. intros H1 H2. unfold getItem. by rewrite H1, H2. Qed.

Lemma sameNonce_true o n :
  sameNonce o n = true <-> o = Some (VUint64 n).
Proof.
  destruct o as [[b|m]|]; simpl; split; try done.
  - intros H. apply Z.eqb_eq in H. by subst.
  - intros [= ->]. apply Z.eqb_refl.
Qed.

Lemma sameNonce_false o n :
  sameNonce o n = false <-> o <> Some (VUint64 n).
Proof.
  rewrite <- sameNonce_true. destruct (sameNonce o n); split; congruence.
Qed.

Lemma nonceKey_neq address : nonceKey address <> address.
Proof.
  intros H. apply (f_equal String.length) in H.
  change (6 + String.length address = String.length address)%nat in H. lia.
Qed.

Lemma reserve_clientIP l e address clientIP c :
  0 < ttl l ->
  reserve l e address clientIP c !! clientIP
  = Some (mkItem (VBool true) (Some (now_setClientIP e + ttl l))).
Proof.
  intros Ht. unfold reserve, SetWithTTL.
  destruct (Z.ltb_spec 0 (ttl l)); [|lia]. by rewrite lookup_insert_eq.
Qed.

Lemma reserve_address l e address clientIP c :
  0 < ttl l ->
  reserve l e address clientIP c !! address
  = Some (mkItem (VBool true)
            (Some ((if decide (clientIP = address) then now_setClientIP e
                    else now_setAddress e) + ttl l))).
Proof.
  intros Ht. unfold reserve, SetWithTTL.
  destruct (Z.ltb_spec 0 (ttl l)); [|lia].
  rewrite lookup_insert. destruct (decide (clientIP = address)); [done|].
  by rewrite lookup_insert_eq.
Qed.

Lemma reserve_other l e address clientIP c key :
  key <> address -> key <> clientIP ->
  reserve l e address clientIP c !! key = c !! key.
Proof.
  intros H1 H2. unfold reserve, SetWithTTL.
  by rewrite !lookup_insert_ne.
Qed.

Lemma Remove_both_address (c : Cache) address clientIP :
  Remove (Remove c address) clientIP !! address = None.
Proof.
  unfold Remove. rewrite lookup_delete.
  destruct (decide (clientIP = address)); [done|]. by rewrite lookup_delete_eq.
Qed.

Lemma Remove_both_clientIP (c : Cache) address clientIP :
  Remove (Remove c address) clientIP !! clientIP = None.
Proof. unfold Remove. by rewrite lookup_delete_eq. Qed.

Lemma Remove_both_other (c : Cache) address clientIP key :
  key <> address -> key <> clientIP ->
  Remove (Remove c address) clientIP !! key = c !! key.
Proof. intros. unfold Remove. by rewrite !lookup_delete_ne. Qed.

(** Removing both keys undoes the reservation, and deletes what the two
    keys held before it. *)
Lemma Remove_both_reserve l e address clientIP c :
  Remove (Remove (reserve l e address clientIP c) address) clientIP
  = delete clientIP (delete address c).
Proof.
  unfold Remove, reserve, SetWithTTL. apply map_eq. intros k.
  destruct (decide (k = clientIP)) as [->|Hk1].
  { by rewrite !lookup_delete_eq. }
  rewrite !(lookup_delete_ne _ clientIP k) by done.
  destruct (decide (k = address)) as [->|Hk2].
  { by rewrite !lookup_delete_eq. }
  rewrite !(lookup_delete_ne _ address k) by done.
  by rewrite !lookup_insert_ne by done.
Qed.

End CacheFacts.

(** ** Admission *)

Section Admission.
Import ttlcache server.
Local Open Scope Z_scope.


End Admission.

(** ** Every way a request with a parsed address is served *)

Section Cases.
Import ttlcache server.
Local Open Scope Z_scope.

Variables (l : Limiter) (e : Env) (r : Request) (c : Cache).
Variables (address clientIP : string).
Hypothesis Henabled : 0 < ttl l.
Hypothesis Haddress : readAddress e = ParsedAddress address.
Hypothesis HclientIP :
  getClientIPFromRequest (proxyCount l) r = Some clientIP.

(** The outcomes of an admitted request. *)
Lemma admitted_cases :
  getItem c (now_checkAddress e) address = None -> getItem c (now_checkClientIP e) clientIP = None ->
  (dialOk e = false
   /\ serve l e r c
      = mkWorld (reserve l e address clientIP c) (admission l address clientIP ++ [EvDial (provider l)]))
  \/ (dialOk e = true /\ pendingNonce e = None
      /\ serve l e r c
         = mkWorld (reserve l e address clientIP c) (admission l address clientIP
                       ++ [EvDial (provider l); EvPendingNonceAt address]))
  \/ (exists toNonce,
         dialOk e = true /\ pendingNonce e = Some toNonce
         /\ Get (reserve l e address clientIP c) (now_getNonce e) (nonceKey address) = Some (VUint64 toNonce)
         /\ serve l e r c
            = mkWorld (Remove (Remove (reserve l e address clientIP c) address) clientIP)
                (admission l address clientIP
                 ++ [EvDial (provider l); EvPendingNonceAt address;
                     EvGet (nonceKey address); EvLog "Address nonce same as cached nonce";
                     EvRemove address; EvRemove clientIP;
                     EvRender StatusTooManyRequests duplicateMessage]))
  \/ (exists toNonce,
         dialOk e = true /\ pendingNonce e = Some toNonce
         /\ Get (reserve l e address clientIP c) (now_getNonce e) (nonceKey address) <> Some (VUint64 toNonce)
         /\ nextStatus e <> StatusOK
         /\ serve l e r c
            = mkWorld (Remove (Remove (reserve l e address clientIP c) address) clientIP)
                (admission l address clientIP
                 ++ [EvDial (provider l); EvPendingNonceAt address;
                     EvGet (nonceKey address); EvNext; EvRemove address; EvRemove clientIP]))
  \/ (exists toNonce,
         dialOk e = true /\ pendingNonce e = Some toNonce
         /\ Get (reserve l e address clientIP c) (now_getNonce e) (nonceKey address) <> Some (VUint64 toNonce)
         /\ nextStatus e = StatusOK
         /\ serve l e r c
            = mkWorld (Set_ (reserve l e address clientIP c) (nonceKey address) (VUint64 toNonce))
                (admission l address clientIP
                 ++ [EvDial (provider l); EvPendingNonceAt address;
                     EvGet (nonceKey address); EvNext; EvSet (nonceKey address) (VUint64 toNonce);
                     EvLog "Maximum request limit has been reached"])).
Proof using Henabled Haddress HclientIP.
  intros H1 H2. unfold serve.
  rewrite (ServeHTTP_admitted l e r address clientIP Henabled Haddress
             HclientIP c (GetWithTTL_getItem_None _ _ _ H1)
             (GetWithTTL_getItem_None _ _ _ H2)).
  destruct (dialOk e) eqn:Hd.
  2:{ left. split; [done|]. by apply afterReservation_dial_failed. }
  destruct (pendingNonce e) as [toNonce|] eqn:Hn.
  2:{ right; left. do 2 (split; [done|]).
      by apply afterReservation_nonce_failed. }
  destruct (sameNonce (Get (reserve l e address clientIP c) (now_getNonce e) (nonceKey address)) toNonce) eqn:Hs.
  { right; right; left. exists toNonce. do 2 (split; [done|]).
    split; [by apply sameNonce_true|].
    by eapply afterReservation_duplicate. }
  apply sameNonce_false in Hs as Hs'.
  destruct (decide (nextStatus e = StatusOK)) as [Hok|Hko].
  - do 4 right. exists toNonce. do 4 (split; [done|]).
    by apply afterReservation_handler_succeeded.
  - do 3 right; left. exists toNonce. do 4 (split; [done|]).
    by eapply afterReservation_handler_failed.
Qed.

End Cases.

Section Sequential.
Import ttlcache server.
Local Open Scope Z_scope.


(** *** Requests that do not reach the admission step *)

Lemma serve_other_error l e r c :
  readAddress e = OtherError ->
  serve l e r c
  = mkWorld c [EvRender StatusInternalServerError
                 StatusText_InternalServerError].
Proof. intros H. unfold serve, ServeHTTP. rewrite H. reflexivity. Qed.

Lemma serve_malformed l e r c status message :
  readAddress e = MalformedRequest status message ->
  serve l e r c = mkWorld c [EvRender status message].
Proof. intros H. unfold serve, ServeHTTP. rewrite H. reflexivity. Qed.

Lemma serve_disabled l e r c address :
  ttl l <= 0 -> readAddress e = ParsedAddress address ->
  serve l e r c = mkWorld c [EvNext].
Proof.
  intros Ht H. unfold serve, ServeHTTP. rewrite H.
  destruct (Z.leb_spec (ttl l) 0); [reflexivity|lia].
Qed.

(** A limiter with TTL <= 0 never writes: its cache stays empty. *)
Lemma reachable_disabled l c : ttl l <= 0 -> reachable l c -> c = ∅.
Proof.
  intros Ht. induction 1 as [|c e r _ IH]; [done|]. subst c.
  destruct (readAddress e) as [a|st msg|] eqn:E.
  - by rewrite (serve_disabled l e r ∅ a Ht E).
  - by rewrite (serve_malformed l e r ∅ st msg E).
  - by rewrite (serve_other_error l e r ∅ E).
Qed.

(** C10.  When [readAddress] fails with an error that is not a
    malformed-request error, the only thing the limiter does is to reply
    500 with the message Internal Server Error: no cache call, no call
    of the handler, the cache as it was. *)
Theorem ServeHTTP_other_parse_error l e r c :
  readAddress e = OtherError ->
  trace (serve l e r c) = [EvRender 500 "Internal Server Error"]
  /\ cache (serve l e r c) = c
  /\ (EvNext ∉ trace (serve l e r c))
  /\ (forall key, (EvGet key ∉ trace (serve l e r c))
                  /\ (EvGetWithTTL key ∉ trace (serve l e r c))
                  /\ (EvRemove key ∉ trace (serve l e r c)))
  /\ (forall key v t, (EvSet key v ∉ trace (serve l e r c))
                      /\ (EvSetWithTTL key v t ∉ trace (serve l e r c))).
Proof.
  intros H. rewrite (serve_other_error l e r c H). cbn.
  repeat split; try done; not_in_trace.
Qed.

Lemma ServeHTTP_other_parse_error_witness :
  trace (serve sample_limiter unparsed_env example_request limited_cache)
  = [EvRender 500 "Internal Server Error"]
  /\ cache (serve sample_limiter unparsed_env example_request limited_cache)
     = limited_cache.
Proof.
  destruct (ServeHTTP_other_parse_error sample_limiter unparsed_env
              example_request limited_cache eq_refl) as (H1 & H2 & _).
  split; [exact H1 | exact H2].
Defined.

End Sequential.

(** ** The paths of [Limiter.ServeHTTP] *)

Section ServedCases.
Import ttlcache server Serving.
Local Open Scope Z_scope.

(** [serve] takes one of the paths of [Served]. *)
Lemma serve_Served l e r c : Served l e r c (serve l e r c).
Proof.
  destruct (readAddress e) as [address|st msg|] eqn:Ha.
  2:{ rewrite (serve_malformed l e r c st msg Ha). by constructor. }
  2:{ rewrite (serve_other_error l e r c Ha). by constructor. }
  destruct (Z.le_gt_cases (ttl l) 0) as [Hoff|Hon].
  { rewrite (serve_disabled l e r c address Hoff Ha). by econstructor. }
  destruct (getClientIPFromRequest_total (proxyCount l) r) as [clientIP Hip].
  destruct (getItem c (now_checkAddress e) address) as [it|] eqn:H1.
  { rewrite (ServeHTTP_limited_address l e r address clientIP Hon Ha Hip
               c _ _ (GetWithTTL_getItem_Some _ _ _ _ H1)).
    by econstructor. }
  destruct (getItem c (now_checkClientIP e) clientIP) as [it|] eqn:H2.
  { rewrite (ServeHTTP_limited_clientIP l e r address clientIP Hon Ha Hip
               c _ _ (GetWithTTL_getItem_None _ _ _ H1)
               (GetWithTTL_getItem_Some _ _ _ _ H2)).
    by econstructor. }
  assert (Hp : passes l e r c address clientIP) by done.
  destruct (admitted_cases l e r c address clientIP Hon Ha Hip H1 H2)
    as [(Hd & ->)|[(Hd & Hn & ->)|[(n & Hd & Hn & Hs & ->)
       |[(n & Hd & Hn & Hs & Hko & ->)|(n & Hd & Hn & Hs & Hok & ->)]]]].
  - by apply served_dial_failed.
  - by apply served_nonce_failed.
  - by eapply served_duplicate.
  - by eapply served_rolled_back.
  - by apply served_committed.
Qed.

End ServedCases.

(** ** After the reservation: ledger, nonce and handler *)

Section AfterReservation.
Import ttlcache server.
Local Open Scope Z_scope.

Lemma Get_reserve_other l e address clientIP c now key :
  key <> address -> key <> clientIP ->
  Get (reserve l e address clientIP c) now key = Get c now key.
Proof.
  intros H1 H2. unfold Get, getItem. by rewrite reserve_other.
Qed.


(** C2.  For a request that passed the admission step and whose ledger
    query returned [toNonce]: when the lookup of the nonce key finds
    exactly [toNonce], both rate-limit records are removed, the reply is
    429 with the repeated-request message, and the handler is not
    called; when it finds nothing or another value, the handler is
    called.  The lookup sees the record of the cache the request started
    from whenever the client address is not the nonce key itself. *)
Theorem ServeHTTP_duplicate_nonce l e r c address clientIP toNonce :
  0 < ttl l ->
  readAddress e = ParsedAddress address ->
  getClientIPFromRequest (proxyCount l) r = Some clientIP ->
  getItem c (now_checkAddress e) address = None ->
  getItem c (now_checkClientIP e) clientIP = None ->
  dialOk e = true ->
  pendingNonce e = Some toNonce ->
  let stored :=
    Get (reserve l e address clientIP c) (now_getNonce e) (nonceKey address) in
  let w := serve l e r c in
  (stored = Some (VUint64 toNonce) ->
   cache w !! address = None
   /\ cache w !! clientIP = None
   /\ trace w
      = (admission l address clientIP
         ++ [EvDial (provider l); EvPendingNonceAt address;
             EvGet (nonceKey address);
             EvLog "Address nonce same as cached nonce";
             EvRemove address; EvRemove clientIP;
             EvRender 429 "Please do not make repeated requests."])%list
   /\ (EvNext ∉ trace w))
  /\ (stored <> Some (VUint64 toNonce) ->
      (EvNext ∈ trace w)
      /\ ~ duplicate_detected w)
  /\ (clientIP <> nonceKey address ->
      stored = Get c (now_getNonce e) (nonceKey address)).
Proof.
  intros Ht Ha Hip H1 H2 Hd Hn stored w.
  destruct (admitted_cases l e r c address clientIP Ht Ha Hip H1 H2)
    as [(Hd' & _)|[(_ & Hn' & _)|[(n & _ & Hn' & Hs & Hw)
       |[(n & _ & Hn' & Hs & Hst & Hw)|(n & _ & Hn' & Hs & Hst & Hw)]]]];
    try congruence;
    assert (n = toNonce) as -> by congruence;
    subst w; rewrite Hw; cbn [cache trace].
  - split; [|split].
    + intros _. split; [apply Remove_both_address|].
      split; [apply Remove_both_clientIP|]. split; [done|].
      unfold admission. not_in_trace.
    + intros Hne. by destruct Hne.
    + intros Hne. apply Get_reserve_other; [apply nonceKey_neq|done].
  - split; [|split].
    + intros Heq. by destruct Hs.
    + intros _. split; [in_trace|].
      unfold duplicate_detected, admission. cbn [trace]. not_in_trace.
    + intros Hne. apply Get_reserve_other; [apply nonceKey_neq|done].
  - split; [|split].
    + intros Heq. by destruct Hs.
    + intros _. split; [in_trace|].
      unfold duplicate_detected, admission. cbn [trace]. not_in_trace.
    + intros Hne. apply Get_reserve_other; [apply nonceKey_neq|done].
Qed.

End AfterReservation.

Section LedgerFailure.
Import ttlcache server.
Local Open Scope Z_scope.

(** Stored nonce 5: a request that fetches 5 is flagged and both
    reservation keys are gone; one that fetches 6 reaches the handler. *)
Lemma ServeHTTP_duplicate_nonce_witness :
  (let w := serve sample_limiter (sample_env true (Some 5) 200)
              example_request nonce5_cache in
   cache w !! sample_address = None /\ cache w !! "2.2.2.2" = None
   /\ (EvNext ∉ trace w))
  /\ (EvNext ∈ trace (serve sample_limiter (sample_env true (Some 6) 200)
                        example_request nonce5_cache)).
Proof.
  split.
  - destruct (ServeHTTP_duplicate_nonce sample_limiter
                (sample_env true (Some 5) 200) example_request nonce5_cache
                sample_address "2.2.2.2" 5) as (H & _);
      [reflexivity | reflexivity | vm_compute; reflexivity
      | vm_compute; reflexivity | vm_compute; reflexivity
      | reflexivity | reflexivity |].
    destruct H as (H1 & H2 & _ & H4); [vm_compute; reflexivity|].
    cbv zeta. split; [exact H1|]. split; [exact H2|exact H4].
  - destruct (ServeHTTP_duplicate_nonce sample_limiter
                (sample_env true (Some 6) 200) example_request nonce5_cache
                sample_address "2.2.2.2" 6) as (_ & H & _);
      [reflexivity | reflexivity | vm_compute; reflexivity
      | vm_compute; reflexivity | vm_compute; reflexivity
      | reflexivity | reflexivity |].
    destruct H as (H1 & _); [vm_compute; discriminate|]. exact H1.
Defined.

(** C7.  When an admitted request cannot reach the ledger, or cannot get
    the pending nonce from it, the limiter writes no reply, calls no
    handler and removes nothing: the cache is the one of the
    reservation; both records are found until a TTL after their
    insertion and no longer afterwards, and until then a later request
    for the same address is turned away with 429. *)
Theorem ServeHTTP_ledger_failure l e r c address clientIP :
  0 < ttl l ->
  readAddress e = ParsedAddress address ->
  getClientIPFromRequest (proxyCount l) r = Some clientIP ->
  getItem c (now_checkAddress e) address = None ->
  getItem c (now_checkClientIP e) clientIP = None ->
  dialOk e = false \/ pendingNonce e = None ->
  let w := serve l e r c in
  cache w = reserve l e address clientIP c
  /\ (forall status message, EvRender status message ∉ trace w)
  /\ (EvNext ∉ trace w)
  /\ (forall key, EvRemove key ∉ trace w)
  /\ (forall now, now <= now_setClientIP e + ttl l ->
                  is_Some (getItem (cache w) now clientIP))
  /\ (forall now, now_setClientIP e + ttl l < now ->
                  getItem (cache w) now clientIP = None)
  /\ (forall now,
         (if decide (clientIP = address) then now_setClientIP e
          else now_setAddress e) + ttl l < now ->
         getItem (cache w) now address = None)
  /\ (forall now,
         now <= (if decide (clientIP = address) then now_setClientIP e
                 else now_setAddress e) + ttl l ->
         is_Some (getItem (cache w) now address)
         /\ forall e' r' clientIP',
             readAddress e' = ParsedAddress address ->
             getClientIPFromRequest (proxyCount l) r' = Some clientIP' ->
             now_checkAddress e' = now ->
             exists message,
               serve l e' r' (cache w)
               = mkWorld (cache w)
                   [EvLock; EvGetWithTTL address;
                    EvRender 429 message; EvUnlock]).
Proof.
  intros Ht Ha Hip H1 H2 Hfail w.
  assert (Hw : cache w = reserve l e address clientIP c
               /\ (trace w = (admission l address clientIP
                              ++ [EvDial (provider l)])%list
                   \/ trace w = (admission l address clientIP
                                 ++ [EvDial (provider l);
                                     EvPendingNonceAt address])%list)).
  { subst w.
    destruct (admitted_cases l e r c address clientIP Ht Ha Hip H1 H2)
      as [(_ & Hw)|[(_ & _ & Hw)|[(n & Hd & Hn & _)
         |[(n & Hd & Hn & _)|(n & Hd & Hn & _)]]]];
      try (destruct Hfail; congruence);
      rewrite Hw; cbn [cache trace]; auto. }
  destruct Hw as [Hc Htr].
  assert (Hlive_ip : forall now, now <= now_setClientIP e + ttl l ->
                                 is_Some (getItem (cache w) now clientIP)).
  { intros now Hnow. rewrite Hc. eexists. apply getItem_live.
    - by apply reserve_clientIP.
    - unfold expired; cbn. apply Z.ltb_ge. lia. }
  assert (Hlive_a : forall now,
             now <= (if decide (clientIP = address) then now_setClientIP e
                     else now_setAddress e) + ttl l ->
             is_Some (getItem (cache w) now address)).
  { intros now Hnow. rewrite Hc. eexists. apply getItem_live.
    - by apply reserve_address.
    - unfold expired; cbn. apply Z.ltb_ge. lia. }
  split; [done|].
  split.
  { intros st msg. destruct Htr as [-> | ->]; unfold admission; not_in_trace. }
  split.
  { destruct Htr as [-> | ->]; unfold admission; not_in_trace. }
  split.
  { intros key. destruct Htr as [-> | ->]; unfold admission; not_in_trace. }
  split; [done|].
  split.
  { intros now Hnow. rewrite Hc. unfold getItem.
    rewrite reserve_clientIP by done. unfold expired; cbn.
    destruct (Z.ltb_spec (now_setClientIP e + ttl l) now); [done|lia]. }
  split.
  { intros now Hnow. rewrite Hc. unfold getItem.
    rewrite reserve_address by done. unfold expired; cbn.
    match goal with |- context [?a <? now] =>
      destruct (Z.ltb_spec a now); [done|lia] end. }
  intros now Hnow. split; [by apply Hlive_a|].
  intros e' r' clientIP' Ha' Hip' Hnow'.
  destruct (Hlive_a now Hnow) as [it Hit]. rewrite <- Hnow' in Hit.
  eexists.
  eapply ServeHTTP_limited_address; eauto using GetWithTTL_getItem_Some.
Qed.

Lemma ServeHTTP_ledger_failure_witness :
  let w := serve sample_limiter (sample_env false None 200) example_request ∅ in
  cache w
  = reserve sample_limiter (sample_env false None 200) sample_address
      "2.2.2.2" ∅
  /\ (EvNext ∉ trace w)
  /\ is_Some (getItem (cache w) (160 * Duration.Second) sample_address).
Proof.
  destruct (ServeHTTP_ledger_failure sample_limiter
              (sample_env false None 200) example_request ∅
              sample_address "2.2.2.2") as (H1 & _ & H3 & _ & _ & _ & _ & H6);
    [reflexivity | reflexivity | vm_compute; reflexivity
    | vm_compute; reflexivity | vm_compute; reflexivity
    | left; reflexivity |].
  cbv zeta. split; [exact H1|]. split; [exact H3|].
  apply (H6 (160 * Duration.Second)). vm_compute. discriminate.
Defined.

End LedgerFailure.

(** ** What the handler's outcome does to the cache *)

Section HandlerOutcome.
Import ttlcache server Serving.
Local Open Scope Z_scope.

(** C3.  Whenever the handler is called and leaves a status other than
    the success status, neither the claim-identity key nor the
    client-address key holds a record afterwards, whatever they held
    before, so a lookup of either finds nothing at any time.  With
    TTL > 0 this holds of every cache [c], and it is the work of the two
    [Remove] calls that follow the handler: they end the trace, and the
    cache is [c] with the two keys deleted.  With TTL <= 0 the limiter
    makes no cache call at all, and [c] is any cache it can hold, which
    is the empty one. *)
Theorem ServeHTTP_handler_failure l c e r address clientIP :
  (ttl l <= 0 -> reachable l c) ->
  readAddress e = ParsedAddress address ->
  getClientIPFromRequest (proxyCount l) r = Some clientIP ->
  EvNext ∈ trace (serve l e r c) ->
  nextStatus e <> StatusOK ->
  let c' := cache (serve l e r c) in
  c' !! address = None
  /\ c' !! clientIP = None
  /\ (forall now,
         GetWithTTL c' now address = None
         /\ GetWithTTL c' now clientIP = None)
  /\ (0 < ttl l ->
      c' = delete clientIP (delete address c)
      /\ trace (serve l e r c)
         = (admission l address clientIP
            ++ [EvDial (provider l); EvPendingNonceAt address;
                EvGet (nonceKey address); EvNext;
                EvRemove address; EvRemove clientIP])%list).
Proof.
  intros Hr Ha Hip Hnext Hst c'.
  assert (H : c' !! address = None /\ c' !! clientIP = None
              /\ (0 < ttl l ->
                  c' = delete clientIP (delete address c)
                  /\ trace (serve l e r c)
                     = (admission l address clientIP
                        ++ [EvDial (provider l); EvPendingNonceAt address;
                            EvGet (nonceKey address); EvNext;
                            EvRemove address; EvRemove clientIP])%list)).
  { subst c'. revert Hnext.
    destruct (serve_Served l e r c)
      as [| |a Ha' Hoff| | |a ip Hp|a ip Hp|a ip n Hp|a ip n Hp|a ip n Hp];
      cbn [cache trace]; try (unfold admission; not_in_trace);
      try congruence.
    - intros _. rewrite (reachable_disabled l c Hoff (Hr Hoff)).
      split; [done|]. split; [done|]. intros Hon. lia.
    - intros _. destruct Hp as (_ & Ha2 & Hip2 & _).
      assert (a = address) as -> by congruence.
      assert (ip = clientIP) as -> by congruence.
      split; [apply Remove_both_address|].
      split; [apply Remove_both_clientIP|].
      intros _. split; [apply Remove_both_reserve|done]. }
  destruct H as (H1 & H2 & H3). do 2 (split; [done|]). split; [|done].
  intros now. split; apply GetWithTTL_getItem_None; by apply getItem_absent.
Qed.

Lemma ServeHTTP_handler_failure_witness :
  let c' := cache (serve sample_limiter
                     (env_at 200 sample_address 5 StatusInternalServerError)
                     example_request limited_cache) in
  c' !! sample_address = None /\ c' !! "2.2.2.2" = None.
Proof.
  destruct (ServeHTTP_handler_failure sample_limiter limited_cache
              (env_at 200 sample_address 5 StatusInternalServerError)
              example_request sample_address "2.2.2.2") as (H1 & H2 & _);
    [ intros Hoff; exfalso; apply Hoff; reflexivity
    | reflexivity | vm_compute; reflexivity
    | vm_compute; in_trace | vm_compute; discriminate |].
  cbv zeta. split; [exact H1 | exact H2].
Defined.

End HandlerOutcome.

(** ** The nonce record *)

Section NonceRecord.
Import ttlcache server Serving.
Local Open Scope Z_scope.

(** With TTL <= 0 the handler is called and may succeed, and no nonce
    record is written: success of the handler does not imply the
    write. *)
Lemma nonce_written_iff_succeeded_fails_disabled :
  let e := sample_env true (Some 5) 200 in
  let w := serve disabled_limiter e example_request ∅ in
  ~ (nonce_written w sample_address <-> handler_succeeded e w).
Proof.
  cbv zeta. intros [_ H].
  destruct H as (ev & Hin & Hev).
  - split; [vm_compute; in_trace | reflexivity].
  - vm_compute in Hin. apply list_elem_of_singleton in Hin. subst ev.
    discriminate Hev.
Qed.

Lemma Set_lookup (c : Cache) key v :
  Set_ c key v !! key = Some (mkItem v None).
Proof. unfold Set_. by rewrite lookup_insert_eq. Qed.

Lemma eqb_ne (a b : string) : a <> b -> String.eqb a b = false.
Proof. apply String.eqb_neq. Qed.

(** A trace none of whose calls touches the key stores nothing under it. *)
Lemma untouched_not_written (w : World) address :
  Forall (fun ev => touches (nonceKey address) ev = false) (trace w) ->
  ~ nonce_written w address.
Proof.
  intros Hall (ev & Hin & Hev). rewrite Forall_forall in Hall.
  specialize (Hall ev Hin). destruct ev; cbn in *; congruence.
Qed.

(** Which calls of a request touch the nonce key of its address, and
    what they leave under it: nothing is touched unless the handler
    succeeded, as long as the client address is not the key. *)
Lemma Served_nonce_key l e r c w address clientIP :
  Served l e r c w ->
  0 < ttl l ->
  readAddress e = ParsedAddress address ->
  getClientIPFromRequest (proxyCount l) r = Some clientIP ->
  clientIP <> nonceKey address ->
  (handler_succeeded e w /\ nonce_written w address)
  \/ (~ handler_succeeded e w
      /\ Forall (fun ev => touches (nonceKey address) ev = false) (trace w)
      /\ cache w !! nonceKey address = c !! nonceKey address).
Proof.
  intros HS Hon Ha Hip Hne.
  pose proof (nonceKey_neq address) as Hna.
  pose proof (not_eq_sym Hna) as Hna'.
  assert (Hkeep : reserve l e address clientIP c !! nonceKey address
                  = c !! nonceKey address)
    by (apply reserve_other; [done|by apply not_eq_sym]).
  destruct HS
    as [? ? Hm|Hm|a Ha' Hoff|a ip it _ Ha2 Hip2 H1|a ip it _ Ha2 Hip2 H1 H2
       |a ip Hp|a ip Hp|a ip n Hp|a ip n Hp ? ? ? Hko|a ip n Hp ? Hn ? Hok];
    try congruence; try lia;
    try (destruct Hp as (_ & Ha2 & Hip2 & _));
    assert (a = address) as -> by congruence;
    assert (ip = clientIP) as -> by congruence;
    cbn [cache trace].
  1-6: right.
  1-5: split; [intros [Hnext _]; revert Hnext; unfold admission; not_in_trace|].
  6: split; [by intros [_ Hok]|].
  1-6: split;
    [unfold admission; repeat first [apply Forall_app; split | constructor];
     cbn; try done; by apply eqb_ne|].
  1-2: done.
  1-2: done.
  1-2: rewrite Remove_both_other; [done|done|by apply not_eq_sym].
  left. split.
  - split; [in_trace|done].
  - exists (EvSet (nonceKey address) (VUint64 n)). split; [in_trace|].
    cbn. apply String.eqb_refl.
Qed.

(** C4, amended.  With TTL > 0 and a parsed address: when the handler is
    called and leaves the success status, the method calls [Set] on the
    nonce key with the pending nonce just fetched, and the record then
    holds that nonce and has no expiry; otherwise it calls no [Set].
    When the client address is not the nonce key, a value is stored
    under the nonce key exactly when the handler succeeded, and on every
    other outcome no call stores or removes anything under that key and
    the record is what it was.  When the client address is the nonce key
    (it is read from a header of the request), an admitted request
    stores its mark under the nonce key by [SetWithTTL] whatever the
    handler does, and a failed handler is followed by the removal of the
    record.  With TTL <= 0 the only call is that of the handler: nothing
    is written. *)
Theorem ServeHTTP_nonce_written l e r c address clientIP :
  readAddress e = ParsedAddress address ->
  getClientIPFromRequest (proxyCount l) r = Some clientIP ->
  let w := serve l e r c in
  let key := nonceKey address in
  (ttl l <= 0 -> w = mkWorld c [EvNext] /\ ~ nonce_written w address)
  /\ (0 < ttl l ->
      (handler_succeeded e w ->
       exists toNonce,
         pendingNonce e = Some toNonce
         /\ EvSet key (VUint64 toNonce) ∈ trace w
         /\ cache w !! key = Some (mkItem (VUint64 toNonce) None))
      /\ (~ handler_succeeded e w -> forall k v, EvSet k v ∉ trace w)
      /\ (clientIP <> key ->
          (nonce_written w address <-> handler_succeeded e w)
          /\ (~ handler_succeeded e w ->
              (forall ev, ev ∈ trace w -> touches key ev = false)
              /\ cache w !! key = c !! key))
      /\ (clientIP = key ->
          getItem c (now_checkAddress e) address = None ->
          getItem c (now_checkClientIP e) clientIP = None ->
          EvSetWithTTL key (VBool true) (ttl l) ∈ trace w
          /\ nonce_written w address
          /\ (EvNext ∈ trace w -> nextStatus e <> StatusOK ->
              EvRemove key ∈ trace w /\ cache w !! key = None))).
Proof.
  intros Ha Hip w key. split.
  { intros Hoff. subst w.
    rewrite (serve_disabled l e r c address Hoff Ha). split; [done|].
    intros (ev & Hin & Hev). cbn in Hin.
    apply list_elem_of_singleton in Hin. subst ev. discriminate Hev. }
  intros Hon. pose proof (serve_Served l e r c) as HS. fold w in HS.
  split; [|split; [|split]].
  - intros [Hnext Hok]. revert Hnext. clearbody w.
    destruct HS
      as [? ? Hm|Hm|a Ha' Hoff|a ip it _ Ha2 Hip2 H1|a ip it _ Ha2 Hip2 H1 H2
         |a ip Hp|a ip Hp|a ip n Hp|a ip n Hp ? ? ? Hko|a ip n Hp ? Hn ? Hok'];
      cbn [cache trace]; try (unfold admission; not_in_trace);
      try congruence; try lia.
    destruct Hp as (_ & Ha2 & _).
    assert (a = address) as -> by congruence.
    intros _. exists n. split; [done|]. split; [in_trace|apply Set_lookup].
  - intros Hno k v. clearbody w.
    destruct HS
      as [? ? Hm|Hm|a Ha' Hoff|a ip it _ Ha2 Hip2 H1|a ip it _ Ha2 Hip2 H1 H2
         |a ip Hp|a ip Hp|a ip n Hp|a ip n Hp ? ? ? Hko|a ip n Hp ? Hn ? Hok'];
      cbn [cache trace] in *; try (unfold admission; not_in_trace).
    destruct Hno. split; [in_trace|done].
  - intros Hne.
    destruct (Served_nonce_key l e r c w address clientIP HS Hon Ha Hip Hne)
      as [[Hok Hw]|(Hno & Hun & Hsame)].
    + split; [done|]. intros Hno. by destruct Hno.
    + split.
      * split; [intros Hw; by destruct (untouched_not_written _ _ Hun)
               |intros Hok; by destruct Hno].
      * intros _. split; [by apply Forall_forall|done].
  - intros Heq H1 H2.
    assert (Hp : passes l e r c address clientIP) by done.
    assert (Hmark : EvSetWithTTL key (VBool true) (ttl l)
                    ∈ admission l address clientIP).
    { rewrite Heq. unfold admission.
      do 4 apply list_elem_of_further. apply list_elem_of_here. }
    assert (Hshape : exists tail,
               trace w = (admission l address clientIP ++ tail)%list
               /\ (EvNext ∈ tail -> nextStatus e <> StatusOK ->
                   EvRemove clientIP ∈ tail
                   /\ cache w
                      = Remove (Remove (reserve l e address clientIP c)
                                  address) clientIP)).
    { clearbody w.
      destruct HS
        as [? ? Hm|Hm|a Ha' Hoff|a ip it _ Ha2 Hip2 H1'
           |a ip it _ Ha2 Hip2 H1' H2'
           |a ip Hp'|a ip Hp'|a ip n Hp'|a ip n Hp' ? ? ? Hko
           |a ip n Hp' ? Hn ? Hok'];
        try congruence; try lia;
        try (destruct Hp' as (_ & Ha2 & Hip2 & _));
        assert (a = address) as -> by congruence;
        assert (ip = clientIP) as -> by congruence;
        try congruence;
        cbn [cache trace]; eexists; (split; [reflexivity|]).
      - not_in_trace.
      - not_in_trace.
      - not_in_trace.
      - intros _ _. split; [in_trace|done].
      - intros _ Hst. by destruct Hst. }
    destruct Hshape as (tail & Htr & Hfail).
    assert (Hin : EvSetWithTTL key (VBool true) (ttl l) ∈ trace w)
      by (rewrite Htr; apply elem_of_app; by left).
    split; [done|]. split.
    + eexists. split; [exact Hin|]. cbn. apply String.eqb_refl.
    + intros Hnext Hst.
      assert (Hnext' : EvNext ∈ tail).
      { rewrite Htr in Hnext. apply elem_of_app in Hnext as [Hnext|Hnext];
          [|done]. exfalso. revert Hnext. unfold admission. not_in_trace. }
      destruct (Hfail Hnext' Hst) as [Hrem Hc].
      split.
      * rewrite Htr. apply elem_of_app. right. by rewrite <- Heq.
      * rewrite Hc, <- Heq. apply Remove_both_clientIP.
Qed.

Lemma ServeHTTP_nonce_written_witness :
  let w := serve sample_limiter (sample_env true (Some 5) 200)
             example_request ∅ in
  cache w !! nonceKey sample_address = Some (mkItem (VUint64 5) None).
Proof.
  destruct (ServeHTTP_nonce_written sample_limiter
              (sample_env true (Some 5) 200) example_request ∅
              sample_address "2.2.2.2" eq_refl) as (_ & H);
    [vm_compute; reflexivity|].
  destruct H as (H & _); [reflexivity|].
  destruct H as (n & Hn & _ & Hc).
  - split; [vm_compute; in_trace | reflexivity].
  - cbv zeta. rewrite Hc. injection Hn as <-. reflexivity.
Defined.

(** A client address that is the nonce key of the address, sent through
    two proxies, with a handler that fails: the mark is stored under the
    nonce key and removed again. *)
Example nonce_key_as_client_address :
  let e := env_at 100 sample_address 5 StatusInternalServerError in
  let r := forwarded (nonceKey sample_address ++ ", 3.3.3.3")%string
             "9.9.9.9:1234" in
  let w := serve sample_limiter e r ∅ in
  nonce_written w sample_address
  /\ ~ handler_succeeded e w
  /\ EvRemove (nonceKey sample_address) ∈ trace w.
Proof.
  cbv zeta. split; [|split].
  - exists (EvSetWithTTL (nonceKey sample_address) (VBool true)
              (ttl sample_limiter)).
    split; [vm_compute; in_trace|reflexivity].
  - intros [_ H]. discriminate H.
  - vm_compute. in_trace.
Qed.

End NonceRecord.

Section DuplicateKeepsNonce.
Import ttlcache server.
Local Open Scope Z_scope.




End DuplicateKeepsNonce.

(** ** The captcha gate *)

Section CaptchaGate.
Import ttlcache server.
Local Open Scope Z_scope.

(** C8.  With an empty secret the request goes to the next handler
    whatever the token and whatever the verifier would say, and the
    verifier is not asked.  With a non-empty secret the verifier is asked
    about the token of the request; the next handler is called exactly
    when it reports success, and otherwise the reply is 429 with the
    fixed message and the next handler is not called. *)
Theorem Captcha_ServeHTTP_gate k verify r :
  (secret k = "" -> trace (serveCaptcha k verify r) = [EvNext])
  /\ (secret k <> "" ->
      (EvNext ∈ trace (serveCaptcha k verify r) <-> verify (token r) = true)
      /\ (verify (token r) = true ->
          trace (serveCaptcha k verify r) = [EvVerifyToken (token r); EvNext])
      /\ (verify (token r) = false ->
          trace (serveCaptcha k verify r)
          = [EvVerifyToken (token r);
             EvRender 429 "Captcha verification failed, please try again"])).
Proof.
  unfold serveCaptcha, Captcha_ServeHTTP. fold (token r). split.
  - intros ->. reflexivity.
  - intros Hs. destruct (String.eqb_spec (secret k) ""); [done|].
    run_M. destruct (verify (token r)); cbn.
    + split; [split; [done|intros _; in_trace]|]. by split.
    + split; [split; [not_in_trace|done]|]. by split.
Qed.

Lemma Captcha_ServeHTTP_gate_witness :
  trace (serveCaptcha {| secret := "" |} (fun _ => false) example_request)
  = [EvNext]
  /\ trace (serveCaptcha {| secret := "0x0000" |} (fun _ => false)
              example_request)
     = [EvVerifyToken "";
        EvRender 429 "Captcha verification failed, please try again"].
Proof.
  split.
  - apply (proj1 (Captcha_ServeHTTP_gate {| secret := "" |} (fun _ => false)
                    example_request)). reflexivity.
  - apply (proj2 (Captcha_ServeHTTP_gate {| secret := "0x0000" |}
                    (fun _ => false) example_request));
      [discriminate | reflexivity].
Defined.

End CaptchaGate.


(** ** Requests in flight together *)

Section Alone.
Import ttlcache server Concurrent.
Local Open Scope Z_scope.

(** A request that runs alone from a free mutex takes the steps of
    [Limiter.ServeHTTP]: it returns within thirteen steps, with the trace
    and the cache of [serve], and the mutex free again. *)
Lemma run_alone_serve l e r c :
  exists t',
    run_alone l 13 (spawn (e, r)) (mkShared c false)
    = (t', mkShared (cache (serve l e r c)) false)
    /\ t_trace t' = trace (serve l e r c)
    /\ returned t' = true.
Proof.
  destruct (readAddress e) as [address|st msg|] eqn:Ha.
  2:{ rewrite (serve_malformed l e r c st msg Ha).
      eexists. cbn. rewrite Ha. cbn. done. }
  2:{ rewrite (serve_other_error l e r c Ha).
      eexists. cbn. rewrite Ha. cbn. done. }
  destruct (Z.le_gt_cases (ttl l) 0) as [Hoff|Hon].
  { rewrite (serve_disabled l e r c address Hoff Ha).
    eexists. cbn. rewrite Ha. destruct (Z.leb_spec (ttl l) 0); [|lia].
    cbn. done. }
  destruct (getClientIPFromRequest_total (proxyCount l) r) as [clientIP Hip].
  assert (Hstart :
            forall n,
              run_alone l (S (S n)) (spawn (e, r)) (mkShared c false)
              = run_alone l n
                  (mkThread e r pCheckAddress address clientIP 0 [EvLock])
                  (mkShared c true)).
  { intros n. cbn. rewrite Ha, Hip.
    destruct (Z.leb_spec (ttl l) 0); [lia|]. cbn. done. }
  rewrite Hstart.
  destruct (getItem c (now_checkAddress e) address) as [it|] eqn:H1.
  { rewrite (ServeHTTP_limited_address l e r address clientIP Hon Ha Hip
               c _ _ (GetWithTTL_getItem_Some _ _ _ _ H1)).
    eexists. cbn. rewrite (GetWithTTL_getItem_Some _ _ _ _ H1). cbn. done. }
  destruct (getItem c (now_checkClientIP e) clientIP) as [it|] eqn:H2.
  { rewrite (ServeHTTP_limited_clientIP l e r address clientIP Hon Ha Hip
               c _ _ (GetWithTTL_getItem_None _ _ _ H1)
               (GetWithTTL_getItem_Some _ _ _ _ H2)).
    eexists. cbn. rewrite (GetWithTTL_getItem_None _ _ _ H1). cbn.
    rewrite (GetWithTTL_getItem_Some _ _ _ _ H2). cbn. done. }
  assert (Hadm :
            forall n,
              run_alone l (5 + n)
                (mkThread e r pCheckAddress address clientIP 0 [EvLock])
                (mkShared c true)
              = run_alone l n
                  (mkThread e r pDial address clientIP 0
                     (admission l address clientIP))
                  (mkShared (reserve l e address clientIP c) false)).
  { intros n. cbn. rewrite (GetWithTTL_getItem_None _ _ _ H1). cbn.
    rewrite (GetWithTTL_getItem_None _ _ _ H2). cbn. done. }
  change 11%nat with (5 + 6)%nat. rewrite (Hadm 6%nat).
  destruct (admitted_cases l e r c address clientIP Hon Ha Hip H1 H2)
    as [(Hd & Hw)|[(Hd & Hn & Hw)|[(n & Hd & Hn & Hs & Hw)
       |[(n & Hd & Hn & Hs & Hko & Hw)|(n & Hd & Hn & Hs & Hok & Hw)]]]];
    rewrite Hw; eexists; cbn; rewrite Hd; cbn.
  - done.
  - rewrite Hn. cbn. unfold advance; cbn.
    rewrite <- ?app_assoc; repeat split; cbn; rewrite <- ?app_assoc; done.
  - rewrite Hn. cbn. rewrite Hs. cbn. rewrite Z.eqb_refl. cbn.
    unfold advance, fetched; cbn.
    rewrite <- ?app_assoc; repeat split; cbn; rewrite <- ?app_assoc; done.
  - rewrite Hn. cbn. apply sameNonce_false in Hs. rewrite Hs. cbn.
    destruct (Z.eqb_spec (nextStatus e) StatusOK); [by destruct Hko|]. cbn.
    unfold advance, fetched; cbn.
    rewrite <- ?app_assoc; repeat split; cbn; rewrite <- ?app_assoc; done.
  - rewrite Hn. cbn. apply sameNonce_false in Hs. rewrite Hs. cbn.
    rewrite Hok. cbn. unfold advance, fetched; cbn.
    rewrite <- ?app_assoc; repeat split; cbn; rewrite <- ?app_assoc; done.
Qed.

End Alone.

Section PerThread.
Import ttlcache server Concurrent.
Local Open Scope Z_scope.

Variables (l : Limiter) (address : string).
Hypothesis Henabled : 0 < ttl l.

(** Each step of a request for [address] is one of the steps of
    [astep]. *)
Lemma thread_step_astep t s t' s' :
  wf l address t ->
  thread_step l t s = Some (t', s') ->
  wf l address t'
  /\ t_env t' = t_env t /\ t_req t' = t_req t
  /\ astep l address (t_env t) (t_clientIP t')
       (phase (t_pc t)) s (phase (t_pc t')) s'.
Proof using Henabled.
  assert (Hleb : (ttl l <=? 0) = false) by (apply Z.leb_gt; lia).
  destruct t as [e r pc a ip n tr]. unfold wf, thread_step.
  cbn -[SetWithTTL Remove Set_ GetWithTTL Get getClientIPFromRequest].
  intros (Ha & Hph & Hloc) Hstep.
  destruct (getClientIPFromRequest_total (proxyCount l) r) as [ip' Hip'].
  destruct pc; cbn in Hph; try done;
    try (destruct Hloc as [-> Hip]; [done|]).
  all: rewrite ?Ha, ?Hleb, ?Hip' in Hstep.
  all: repeat match goal with
         | H' : context [match ?x with _ => _ end] |- _ => destruct x eqn:?
         end.
  all: try discriminate.
  all: match goal with H : Some _ = Some _ |- _ => injection H as <- <- end;
    cbn -[SetWithTTL Remove Set_ GetWithTTL Get getClientIPFromRequest].
  all: repeat split; try done; try (by econstructor).
Qed.

Lemma thread_step_traced t s t' s' :
  wf l address t -> traced l t ->
  thread_step l t s = Some (t', s') ->
  traced l t'.
Proof using Henabled.
  assert (Hleb : (ttl l <=? 0) = false) by (apply Z.leb_gt; lia).
  destruct t as [e r pc a ip n tr]. unfold wf, traced, thread_step.
  cbn -[SetWithTTL Remove Set_ GetWithTTL Get getClientIPFromRequest].
  intros (Ha & Hph & Hloc) Htr Hstep.
  destruct (getClientIPFromRequest_total (proxyCount l) r) as [ip' Hip'].
  destruct pc; cbn in Hph; try done.
  all: rewrite ?Ha, ?Hleb, ?Hip' in Hstep.
  all: repeat match goal with
         | H' : context [match ?x with _ => _ end] |- _ => destruct x eqn:?
         end.
  all: try discriminate.
  all: match goal with H : Some _ = Some _ |- _ => injection H as <- <- end;
    cbn -[SetWithTTL Remove Set_ GetWithTTL Get getClientIPFromRequest].
  all: unfold admitted, rate_limited in *; cbn in *.
  all: try (subst tr; cbn; by eauto).
  all: repeat match goal with
         | H : _ /\ _ |- _ => destruct H
         | H : ex _ |- _ => destruct H
         | H : _ \/ _ |- _ => destruct H
         end; subst; cbn.
  all: try (eexists; first [reflexivity | left; reflexivity | right; reflexivity]).
  all: try (split; [eexists; reflexivity|]).
  all: try (apply list_elem_of_further; in_trace).
  all: apply elem_of_app; first [right; by constructor | left].
  all: match goal with
       | H : _ ∈ _ :: _ |- _ =>
           repeat (apply elem_of_cons in H as [H|H]; [discriminate H|]);
           exact H
       end.
Qed.

Lemma in_critical_phase t : in_critical t = critical (phase (t_pc t)).
Proof. unfold in_critical. by destruct (t_pc t) as [| | | | | | | | | | | | | | | | | |[]]. Qed.

End PerThread.

(** ** How a step changes phase, mutex and cache *)

Section Frames.
Import ttlcache server Concurrent.
Local Open Scope Z_scope.

Variables (l : Limiter) (address : string) (e : Env) (clientIP : string).
Variables (ph ph' : Phase) (s s' : Shared).
Hypothesis Hstep : astep l address e clientIP ph s ph' s'.

Lemma astep_critical_entry :
  critical ph' = true -> critical ph = true \/ s_locked s = false.
Proof using Hstep. destruct Hstep; cbn; auto. Qed.

Lemma astep_unlocked :
  s_locked s' = false ->
  (s_locked s = false /\ critical ph' = critical ph)
  \/ (critical ph = true /\ critical ph' = false).
Proof using Hstep. destruct Hstep; cbn; auto; discriminate. Qed.

Lemma astep_wrote : wrote ph = true -> wrote ph' = true.
Proof using Hstep. destruct Hstep; cbn; auto. Qed.

Lemma astep_cache_frame : wrote ph' = false -> s_cache s' = s_cache s.
Proof using Hstep. destruct Hstep; cbn; auto; discriminate. Qed.

Lemma astep_removed : ph = Removed -> ph' = Removed.
Proof using Hstep. destruct Hstep; cbn; auto; discriminate. Qed.

Lemma astep_limited :
  limited ph' = true ->
  limited ph = true
  \/ (exists v w, GetWithTTL (s_cache s) (now_checkAddress e) address = Some (v, w))
  \/ (exists v w, GetWithTTL (s_cache s) (now_checkClientIP e) clientIP = Some (v, w)).
Proof using Hstep. destruct Hstep; cbn; eauto; discriminate. Qed.

Lemma astep_single :
  ph' = Passed \/ holds_reservation ph' = true ->
  (ph = Passed \/ holds_reservation ph = true)
  \/ (ph = Checking
      /\ GetWithTTL (s_cache s) (now_checkAddress e) address = None).
Proof using Hstep.
  destruct Hstep; cbn; auto; intros [Hq|Hq]; try discriminate Hq; auto.
Qed.

Lemma astep_address :
  0 < ttl l ->
  (s_cache s' !! address = s_cache s !! address
   /\ (holds_reservation ph' = true -> holds_reservation ph = true))
  \/ (exists now,
         (now = now_setAddress e \/ now = now_setClientIP e)
         /\ s_cache s' !! address
            = Some (mkItem (VBool true) (Some (now + ttl l))))
  \/ ph' = Removed.
Proof using Hstep.
  intros Ht. destruct Hstep; cbn; auto.
  - right; left. exists (now_setAddress e). split; [by left|].
    unfold SetWithTTL. destruct (Z.ltb_spec 0 (ttl l)); [|lia].
    by rewrite lookup_insert_eq.
  - unfold SetWithTTL. destruct (Z.ltb_spec 0 (ttl l)); [|lia].
    destruct (decide (clientIP = address)) as [->|Hne].
    + right; left. exists (now_setClientIP e). split; [by right|].
      by rewrite lookup_insert_eq.
    + left. split; [|done]. by rewrite lookup_insert_ne.
  - left. split; [|done]. unfold Set_.
    rewrite lookup_insert_ne; [done|apply nonceKey_neq].
Qed.

End Frames.

Section Invariant.
Import ttlcache server Concurrent.
Local Open Scope Z_scope.

(** Some request of the pool satisfies a test, or none does. *)
Lemma pool_dec (f : Thread -> bool) (ts : list Thread) :
  (exists j t, ts !! j = Some t /\ f t = true)
  \/ (forall j t, ts !! j = Some t -> f t = false).
Proof.
  induction ts as [|t ts IH].
  - right. intros j t. by rewrite lookup_nil.
  - destruct (f t) eqn:Hf.
    + left. by exists 0%nat, t.
    + destruct IH as [(j & t0 & Hj & Ht0)|IH].
      * left. by exists (S j), t0.
      * right. intros [|j] t0; cbn; [by intros [= <-]|apply IH].
Qed.

Variables (l : Limiter) (address : string) (c0 : Cache).
Variable ers : list (Env * Request).
Hypothesis Henabled : 0 < ttl l.
Hypothesis Hsame : same_identity address ers.
Hypothesis Hfresh : unlimited l address c0 ers.
Hypothesis Httl : within_ttl l ers.

(** The invariant holds when the requests arrive. *)
Lemma Inv_initial : Inv l address c0 ers (initial c0 ers).
Proof using Hsame.
  assert (Hspawn : forall i t,
             pool (initial c0 ers) !! i = Some t ->
             exists er, ers !! i = Some er /\ t = spawn er).
  { intros i t. cbn. change (map spawn ers) with (spawn <$> ers).
    rewrite list_lookup_fmap. destruct (ers !! i) as [er|]; [|done].
    intros [= <-]. eauto. }
  constructor.
  - cbn. apply length_map.
  - intros i t Hi. destruct (Hspawn i t Hi) as (er & Her & ->).
    assert (Hin : er ∈ ers) by (eapply list_elem_of_lookup_2; eauto).
    split; [|split].
    + split; [|split]; cbn; [|done|done].
      unfold same_identity in Hsame. rewrite Forall_forall in Hsame.
      by apply Hsame.
    + reflexivity.
    + cbn. by destruct er.
  - intros i j ti tj Hi Hj Hci. destruct (Hspawn i ti Hi) as (er & _ & ->). done.
  - intros _ i t Hi. destruct (Hspawn i t Hi) as (er & _ & ->). done.
  - done.
  - intros i t Hi Hl. destruct (Hspawn i t Hi) as (er & _ & ->). done.
  - intros _ i t Hi Hh. destruct (Hspawn i t Hi) as (er & _ & ->). done.
  - intros _ i j ti tj Hi Hj [Hp|Hp]; destruct (Hspawn i ti Hi) as (er & _ & ->); done.
Qed.

(** Every step of every request keeps the invariant. *)
Lemma Inv_step S i S' :
  Inv l address c0 ers S -> step_at l i S = Some S' ->
  Inv l address c0 ers S'.
Proof using Henabled Hfresh Httl.
  intros HI Hs. unfold step_at in Hs.
  destruct (pool S !! i) as [t|] eqn:Hti; [|done].
  destruct (thread_step l t (shared S)) as [[t' s']|] eqn:Hth; [|done].
  injection Hs as <-.
  destruct (inv_threads _ _ _ _ _ HI i t Hti) as (Hwf & Htr & Hin).
  destruct (thread_step_astep l address Henabled t _ t' s' Hwf Hth)
    as (Hwf' & He & Hr & Ha).
  pose proof (thread_step_traced l address Henabled t _ t' s' Hwf Htr Hth)
    as Htr'.
  assert (Hlt : (i < length (pool S))%nat) by (eapply lookup_lt_Some; eauto).
  assert (Hlook_i : <[i:=t']> (pool S) !! i = Some t')
    by (by apply list_lookup_insert_eq).
  assert (Hlook_ne : forall j, j <> i ->
                               <[i:=t']> (pool S) !! j = pool S !! j)
    by (intros j Hne; by apply list_lookup_insert_ne).
  assert (Hlook : forall j tj,
             <[i:=t']> (pool S) !! j = Some tj ->
             (j = i /\ tj = t') \/ (j <> i /\ pool S !! j = Some tj)).
  { intros j tj Hj. destruct (decide (j = i)) as [->|Hne].
    - rewrite Hlook_i in Hj. injection Hj as <-. by left.
    - rewrite Hlook_ne in Hj by done. by right. }
  assert (HnoRem :
            (forall j tj, <[i:=t']> (pool S) !! j = Some tj ->
                          phase (t_pc tj) <> Removed) ->
            forall j tj, pool S !! j = Some tj -> phase (t_pc tj) <> Removed).
  { intros H j tj Hj. destruct (decide (j = i)) as [->|Hne].
    - rewrite Hti in Hj. injection Hj as <-. intros Hrem.
      apply (H i t' Hlook_i). eapply astep_removed; eauto.
    - apply (H j tj). by rewrite Hlook_ne. }
  assert (HnoWrote :
            (forall j tj, <[i:=t']> (pool S) !! j = Some tj ->
                          wrote (phase (t_pc tj)) = false) ->
            forall j tj, pool S !! j = Some tj ->
                         wrote (phase (t_pc tj)) = false).
  { intros H j tj Hj. destruct (decide (j = i)) as [->|Hne].
    - rewrite Hti in Hj. injection Hj as <-.
      destruct (wrote (phase (t_pc t))) eqn:Hw; [|done].
      rewrite <- (H i t' Hlook_i). symmetry. eapply astep_wrote; eauto.
    - apply (H j tj). by rewrite Hlook_ne. }
  assert (Hwrote :
            (exists j tj, pool S !! j = Some tj
                          /\ wrote (phase (t_pc tj)) = true) ->
            exists j tj, <[i:=t']> (pool S) !! j = Some tj
                         /\ wrote (phase (t_pc tj)) = true).
  { intros (j & tj & Hj & Hw). destruct (decide (j = i)) as [->|Hne].
    - exists i, t'. split; [done|]. rewrite Hti in Hj. injection Hj as <-.
      eapply astep_wrote; eauto.
    - exists j, tj. by rewrite Hlook_ne. }
  assert (Hlive :
            forall now,
              now = now_setAddress (t_env t) \/ now = now_setClientIP (t_env t) ->
              forall er, er ∈ ers ->
                expired (now_checkAddress (fst er))
                  (mkItem (VBool true) (Some (now + ttl l))) = false).
  { intros now Hnow er Her. unfold expired; cbn. apply Z.ltb_ge.
    destruct (Httl er (t_env t, t_req t) Her Hin) as [H1 H2]. cbn in *.
    destruct Hnow as [-> | ->]; lia. }
  assert (Hfresh_t :
            getItem c0 (now_checkAddress (t_env t)) address = None
            /\ forall ip,
                getClientIPFromRequest (proxyCount l) (t_req t) = Some ip ->
                getItem c0 (now_checkClientIP (t_env t)) ip = None).
  { unfold unlimited in Hfresh. rewrite Forall_forall in Hfresh.
    apply (Hfresh _ Hin). }
  constructor; cbn [pool shared].
  - rewrite length_insert. apply (inv_length _ _ _ _ _ HI).
  - intros j tj Hj. destruct (Hlook _ _ Hj) as [[-> ->]|[Hne Hj']].
    + split; [done|]. split; [done|]. by rewrite He, Hr.
    + eapply (inv_threads _ _ _ _ _ HI); eauto.
  - intros j k tj tk Hj Hk Hcj Hck.
    destruct (Hlook _ _ Hj) as [[-> ->]|[Hnej Hj']],
             (Hlook _ _ Hk) as [[-> ->]|[Hnek Hk']]; [done| | |].
    + destruct (astep_critical_entry _ _ _ _ _ _ _ _ Ha Hcj) as [Hc|Hu].
      * eapply (inv_exclusive _ _ _ _ _ HI); eauto.
      * rewrite (inv_unlocked _ _ _ _ _ HI Hu k tk Hk') in Hck. done.
    + destruct (astep_critical_entry _ _ _ _ _ _ _ _ Ha Hck) as [Hc|Hu].
      * eapply (inv_exclusive _ _ _ _ _ HI); eauto.
      * rewrite (inv_unlocked _ _ _ _ _ HI Hu j tj Hj') in Hcj. done.
    + eapply (inv_exclusive _ _ _ _ _ HI); eauto.
  - intros Hul j tj Hj.
    destruct (astep_unlocked _ _ _ _ _ _ _ _ Ha Hul) as [[Hu Hc]|[Hc Hc']];
      destruct (Hlook _ _ Hj) as [[-> ->]|[Hne Hj']].
    + rewrite Hc. eapply (inv_unlocked _ _ _ _ _ HI); eauto.
    + eapply (inv_unlocked _ _ _ _ _ HI); eauto.
    + done.
    + destruct (critical (phase (t_pc tj))) eqn:Hcj; [|done].
      destruct Hne. eapply (inv_exclusive _ _ _ _ _ HI); eauto.
  - intros Hnw.
    rewrite (astep_cache_frame _ _ _ _ _ _ _ _ Ha (Hnw i t' Hlook_i)).
    apply (inv_untouched _ _ _ _ _ HI). by apply HnoWrote.
  - intros k tk Hk Hlim.
    destruct (Hlook _ _ Hk) as [[-> ->]|[Hne Hk']].
    2:{ apply Hwrote. eapply (inv_limited _ _ _ _ _ HI); eauto. }
    destruct (astep_limited _ _ _ _ _ _ _ _ Ha Hlim) as [Hl|Hget].
    { apply Hwrote. eapply (inv_limited _ _ _ _ _ HI); eauto. }
    destruct (pool_dec (fun t => wrote (phase (t_pc t))) (pool S))
      as [Hex|Hall]; [by apply Hwrote|].
    exfalso. rewrite (inv_untouched _ _ _ _ _ HI Hall) in Hget.
    destruct Hfresh_t as [Hf1 Hf2].
    destruct Hget as [(v & w & Hget)|(v & w & Hget)].
    + by rewrite (GetWithTTL_getItem_None _ _ _ Hf1) in Hget.
    + destruct Hwf' as (_ & _ & Hloc).
      destruct Hloc as [_ Hip].
      { intros Hpc. rewrite Hpc in Hlim. done. }
      rewrite Hr in Hip.
      by rewrite (GetWithTTL_getItem_None _ _ _ (Hf2 _ Hip)) in Hget.
  - intros Hnr k tk Hk Hh. specialize (HnoRem Hnr).
    destruct (astep_address _ _ _ _ _ _ _ _ Ha Henabled)
      as [[Hc Hhold]|[(now & Hnow & Hc)|Hrem]].
    + rewrite Hc. destruct (Hlook _ _ Hk) as [[-> ->]|[Hne Hk']].
      * eapply (inv_record _ _ _ _ _ HI); eauto.
      * eapply (inv_record _ _ _ _ _ HI); eauto.
    + eexists. split; [exact Hc|]. by apply Hlive.
    + by destruct (Hnr i t' Hlook_i).
  - intros Hnr j k tj tk Hj Hk Hpj Hpk. specialize (HnoRem Hnr).
    assert (Hnew : forall m tm,
               m <> i -> pool S !! m = Some tm ->
               phase (t_pc t') = Passed
               \/ holds_reservation (phase (t_pc t')) = true ->
               phase (t_pc tm) = Passed
               \/ holds_reservation (phase (t_pc tm)) = true ->
               False).
    { intros m tm Hne Hm Hp' Hpm.
      destruct (astep_single _ _ _ _ _ _ _ _ Ha Hp') as [Hp|[Hchk Hget]].
      - apply Hne. eapply (inv_single _ _ _ _ _ HI); eauto.
      - destruct Hpm as [Hpm|Hpm].
        + apply Hne. eapply (inv_exclusive _ _ _ _ _ HI); eauto.
          * by rewrite Hpm.
          * by rewrite Hchk.
        + destruct (inv_record _ _ _ _ _ HI HnoRem m tm Hm Hpm)
            as (it & Hit & Hexp).
          specialize (Hexp _ Hin). cbn in Hexp.
          unfold GetWithTTL, getItem in Hget. by rewrite Hit, Hexp in Hget. }
    destruct (Hlook _ _ Hj) as [[-> ->]|[Hnej Hj']],
             (Hlook _ _ Hk) as [[-> ->]|[Hnek Hk']]; [done| | |].
    + by destruct (Hnew k tk Hnek Hk' Hpj Hpk).
    + by destruct (Hnew j tj Hnej Hj' Hpk Hpj).
    + eapply (inv_single _ _ _ _ _ HI); eauto.
Qed.

End Invariant.

Section Exclusive.
Import ttlcache server Concurrent.
Local Open Scope Z_scope.

Lemma run_schedule_reaches l sched S S' :
  run_schedule l sched S = Some S' -> reaches l S S'.
Proof.
  revert S. induction sched as [|i sched IH]; intros S; cbn.
  - intros [= <-]. apply rtc_refl.
  - destruct (step_at l i S) as [S1|] eqn:Hs; [|done].
    intros H. eapply rtc_l; [by exists i|by apply IH].
Qed.

Lemma Inv_reaches l address c0 ers S :
  0 < ttl l -> same_identity address ers -> unlimited l address c0 ers ->
  within_ttl l ers ->
  reaches l (initial c0 ers) S -> Inv l address c0 ers S.
Proof.
  intros Ht Hsame Hfresh Httl H.
  apply (rtc_ind_r (R := step l) (fun S => Inv l address c0 ers S)
           (initial c0 ers));
    [by apply Inv_initial | | exact H].
  intros S1 S2 _ [i Hi] IH. eapply Inv_step; eauto.
Qed.

(** What a returned request for the address has done, when it did not
    remove the record. *)
Lemma returned_classify l address t :
  wf l address t -> traced l t -> returned t = true ->
  phase (t_pc t) <> Removed ->
  (rate_limited t /\ limited (phase (t_pc t)) = true)
  \/ (admitted l t /\ holds_reservation (phase (t_pc t)) = true).
Proof.
  unfold wf, traced, returned. intros (_ & Hph & _) Htr Hret Hrem.
  destruct (t_pc t) as [| | | | | | | | | | | | | | | | | |[]];
    try discriminate Hret; cbn in *; try done; auto.
Qed.

Lemma removed_in_trace l address t :
  wf l address t -> traced l t -> phase (t_pc t) = Removed ->
  EvRemove address ∈ t_trace t.
Proof.
  unfold wf, traced. intros (_ & _ & Hloc) Htr Hrem.
  destruct (t_pc t) as [| | | | | | | | | | | | | | | | | |[]];
    try discriminate Hrem; cbn in *;
    destruct Hloc as [<- _]; try done; by destruct Htr.
Qed.

(** C9, amended.  Requests for one address, served together by a
    limiter with TTL > 0 from a cache in which neither the address nor
    their client addresses are limited: in every state they reach, at
    most one of them is between [Lock] and [Unlock]; and once all have
    returned, if none of them has removed the record of the address
    (no rollback after a failed handler, no eviction after a repeated
    nonce) and every lookup came within a TTL of the writes, exactly one
    went past the reservation step and every other one was turned away
    with 429 by [limitByKey]. *)
Theorem reservation_is_exclusive l address c0 ers S :
  0 < ttl l ->
  ers <> [] ->
  same_identity address ers ->
  unlimited l address c0 ers ->
  within_ttl l ers ->
  reaches l (initial c0 ers) S ->
  (forall i j ti tj,
      pool S !! i = Some ti -> pool S !! j = Some tj ->
      in_critical ti = true -> in_critical tj = true -> i = j)
  /\ (all_returned S -> none_removed address S -> exactly_one_admitted l S).
Proof.
  intros Ht Hne Hsame Hfresh Httl Hreach.
  pose proof (Inv_reaches l address c0 ers S Ht Hsame Hfresh Httl Hreach) as HI.
  split.
  { intros i j ti tj Hi Hj. rewrite !in_critical_phase.
    by apply (inv_exclusive _ _ _ _ _ HI). }
  intros Hret Hnone.
  unfold all_returned in Hret. rewrite Forall_lookup in Hret.
  unfold none_removed in Hnone. rewrite Forall_lookup in Hnone.
  assert (Hnr : forall j tj, pool S !! j = Some tj -> phase (t_pc tj) <> Removed).
  { intros j tj Hj Hrem.
    destruct (inv_threads _ _ _ _ _ HI j tj Hj) as (Hwf & Htr & _).
    apply (Hnone j tj Hj). by eapply removed_in_trace. }
  assert (Hcl : forall j tj,
             pool S !! j = Some tj ->
             (rate_limited tj /\ limited (phase (t_pc tj)) = true)
             \/ (admitted l tj /\ holds_reservation (phase (t_pc tj)) = true)).
  { intros j tj Hj.
    destruct (inv_threads _ _ _ _ _ HI j tj Hj) as (Hwf & Htr & _).
    eapply returned_classify; eauto. }
  destruct (pool_dec (fun t => holds_reservation (phase (t_pc t))) (pool S))
    as [(i & ti & Hi & Hh)|Hall].
  - exists i, ti. split; [done|]. split.
    + destruct (Hcl i ti Hi) as [[_ Hl]|[Ha _]]; [|done].
      destruct (phase (t_pc ti)); done.
    + intros j tj Hji Hj. destruct (Hcl j tj Hj) as [[Hl _]|[_ Hhj]]; [done|].
      destruct Hji. eapply (inv_single _ _ _ _ _ HI Hnr); eauto.
  - exfalso.
    destruct (pool S) as [|t0 ts] eqn:Hpool.
    { apply Hne. apply length_zero_iff_nil.
      rewrite <- (inv_length _ _ _ _ _ HI). by rewrite Hpool. }
    assert (H0 : pool S !! 0%nat = Some t0) by (by rewrite Hpool).
    rewrite <- Hpool in *.
    destruct (Hcl 0%nat t0 H0) as [[_ Hl]|[_ Hh]].
    + destruct (inv_limited _ _ _ _ _ HI 0%nat t0 H0 Hl) as (j & tj & Hj & Hw).
      pose proof (Hall j tj Hj) as Hhj. pose proof (Hnr j tj Hj) as Hrj.
      destruct (phase (t_pc tj)); done.
    + by rewrite (Hall 0%nat t0 H0) in Hh.
Qed.

Lemma rate_limited_length t : rate_limited t -> (length (t_trace t) <= 5)%nat.
Proof. intros (w & [-> | ->]); cbn; lia. Qed.

(** Two requests for one address arrive together; the first is admitted,
    its handler fails and it rolls its reservation back; the second then
    takes the mutex and is admitted too. *)
Lemma exactly_one_admitted_fails_after_rollback :
  ~ (forall S,
        reaches sample_limiter (initial ∅ (racing 500)) S ->
        all_returned S ->
        exactly_one_admitted sample_limiter S).
Proof.
  intros H.
  set (S := run_to sample_limiter first_then_second (initial ∅ (racing 500))).
  assert (Hreach : reaches sample_limiter (initial ∅ (racing 500)) S).
  { apply (run_schedule_reaches _ first_then_second). vm_compute. reflexivity. }
  assert (Hpool : forall j tj,
             pool S !! j = Some tj ->
             returned tj = true /\ length (t_trace tj) = 12%nat
             /\ (j < 2)%nat).
  { intros [|[|j]] tj; vm_compute; intros [= <-]; repeat split; lia. }
  assert (Hret : all_returned S).
  { apply Forall_lookup. intros j tj Hj. by apply (Hpool j tj). }
  destruct (H S Hreach Hret) as (i & ti & Hi & _ & Hothers).
  assert (Hj : exists j tj, j <> i /\ pool S !! j = Some tj).
  { destruct i as [|i].
    - exists 1%nat. eexists. split; [done|]. vm_compute. reflexivity.
    - exists 0%nat. eexists. split; [done|]. vm_compute. reflexivity. }
  destruct Hj as (j & tj & Hji & Hj).
  pose proof (rate_limited_length _ (Hothers j tj Hji Hj)) as Hlen.
  destruct (Hpool j tj Hj) as (_ & Hlen' & _). lia.
Qed.

Lemma reservation_is_exclusive_witness :
  exactly_one_admitted sample_limiter
    (run_to sample_limiter first_blocks_second (initial ∅ (racing 200))).
Proof.
  apply (reservation_is_exclusive sample_limiter sample_address ∅ (racing 200)).
  - reflexivity.
  - discriminate.
  - repeat constructor.
  - repeat constructor; intros; apply getItem_absent, lookup_empty.
  - intros er er' Her Her'.
    apply elem_of_cons in Her as [->|Her]; [|apply elem_of_cons in Her as [->|Her];
      [|by apply elem_of_nil in Her]];
    (apply elem_of_cons in Her' as [->|Her']; [|apply elem_of_cons in Her' as [->|Her'];
      [|by apply elem_of_nil in Her']]);
    vm_compute; split; discriminate.
  - apply (run_schedule_reaches _ first_blocks_second). vm_compute. reflexivity.
  - apply Forall_lookup. intros [|[|j]] tj; vm_compute; intros [= <-]; reflexivity.
  - apply Forall_lookup. intros [|[|j]] tj; vm_compute; intros [= <-]; cbn.
    + not_in_trace.
    + not_in_trace.
Defined.

End Exclusive.

(** ** Beyond single requests: sequences of requests, the constructor,
    the resolver on forged and bracketed input, and the mutex *)

Section ServedPaths.
Import ttlcache server Concurrent Serving.
Local Open Scope Z_scope.

Lemma nonceKey_inj a b : nonceKey a = nonceKey b -> a = b.
Proof.
  unfold nonceKey. intros H.
  change (String "n" (String "o" (String "n" (String "c" (String "e"
            (String "-" a)))))
          = String "n" (String "o" (String "n" (String "c" (String "e"
              (String "-" b)))))) in H.
  by injection H.
Qed.

(** A record without expiry is found at any time. *)
Lemma getItem_no_expiry (c : Cache) now key it :
  c !! key = Some it -> expireAt it = None -> getItem c now key = Some it.
Proof. intros H1 H2. apply getItem_live; [done|]. unfold expired. by rewrite H2. Qed.

(** A request that passes the admission step has neither its address
    nor its client address equal to a key that holds a record without
    expiry. *)
Lemma passes_not_permanent l e r c address clientIP key it :
  passes l e r c address clientIP ->
  c !! key = Some it -> expireAt it = None ->
  key <> address /\ key <> clientIP.
Proof.
  intros (_ & _ & _ & H1 & H2) Hk He.
  split; intros ->.
  - by rewrite (getItem_no_expiry c _ _ it Hk He) in H1.
  - by rewrite (getItem_no_expiry c _ _ it Hk He) in H2.
Qed.

Lemma turned_away_Served l e r c :
  0 < ttl l -> turned_away l c (e, r) ->
  exists wait,
    serve l e r c
    = mkWorld c [EvLock;
                 EvGetWithTTL (match readAddress e with
                               | ParsedAddress a => a
                               | _ => EmptyString
                               end);
                 EvRender StatusTooManyRequests (rateLimitMessage wait);
                 EvUnlock]
    \/ exists clientIP,
        getClientIPFromRequest (proxyCount l) r = Some clientIP
        /\ serve l e r c
           = mkWorld c [EvLock;
                        EvGetWithTTL (match readAddress e with
                                      | ParsedAddress a => a
                                      | _ => EmptyString
                                      end);
                        EvGetWithTTL clientIP;
                        EvRender StatusTooManyRequests (rateLimitMessage wait);
                        EvUnlock].
Proof.
  intros Hon (a & ip & Ha & Hip & Hlive). cbn in *.
  destruct (getItem c (now_checkAddress e) a) as [it|] eqn:H1.
  - exists (remaining (now_checkAddress e) it). left. rewrite Ha.
    eapply ServeHTTP_limited_address; eauto using GetWithTTL_getItem_Some.
  - destruct Hlive as [[? ?]|[it Hit]]; [done|].
    exists (remaining (now_checkClientIP e) it). right. exists ip.
    split; [done|]. rewrite Ha.
    eapply ServeHTTP_limited_clientIP;
      eauto using GetWithTTL_getItem_Some, GetWithTTL_getItem_None.
Qed.

(** What being turned away means for the cache and the trace. *)
Lemma turned_away_outcome l e r c :
  0 < ttl l -> turned_away l c (e, r) ->
  cache (serve l e r c) = c
  /\ (EvNext ∉ trace (serve l e r c))
  /\ exists wait,
      EvRender StatusTooManyRequests (rateLimitMessage wait)
      ∈ trace (serve l e r c).
Proof.
  intros Hon Hta.
  destruct (turned_away_Served l e r c Hon Hta) as (w & [->|(ip & _ & ->)]);
    cbn [cache trace].
  - split; [done|]. split; [not_in_trace|]. exists w. in_trace.
  - split; [done|]. split; [not_in_trace|]. exists w. in_trace.
Qed.



(** X13: every run of [Limiter.ServeHTTP] keeps the discipline of the
    mutex: [Lock] and [Unlock] alternate and the mutex is released on
    every path of return; the lookups of [limitByKey] and the two
    [SetWithTTL] happen only while it is held; and the mutex is never
    held across [ethclient.Dial], [PendingNonceAt] or the wrapped
    handler. *)
Theorem ServeHTTP_lock_discipline l e r c :
  lock_discipline false (trace (serve l e r c)) = true.
Proof.
  destruct (serve_Served l e r c); reflexivity.
Qed.

(** X1: when [readAddress] fails with a malformed-request error,
    [Limiter.ServeHTTP] answers with the status and the message that the
    error carries and does nothing else: whatever the limiter, the
    request and the cache, the cache is left as it was, the mutex is not
    taken, the ledger is not asked and the wrapped handler is not
    called. *)
Theorem ServeHTTP_malformed_reply l e r c status message :
  readAddress e = MalformedRequest status message ->
  serve l e r c = mkWorld c [EvRender status message].
Proof. apply serve_malformed. Qed.

Lemma ServeHTTP_malformed_reply_witness :
  serve sample_limiter malformed_env example_request limited_cache
  = mkWorld limited_cache [EvRender 400 "invalid address"].
Proof.
  apply (ServeHTTP_malformed_reply sample_limiter malformed_env
           example_request limited_cache 400 "invalid address").
  reflexivity.
Defined.


(** X2: a limiter that [NewLimiter] builds with a TTL of zero or less
    never writes to its cache: after any sequence of requests the cache
    is still the empty one it was created with, and every request whose
    address parses goes straight to the wrapped handler, without the
    mutex, a lookup or a query of the ledger. *)
Theorem disabled_limiter_never_writes proxyCount ttl provider :
  ttl <= 0 ->
  let l := fst (NewLimiter proxyCount ttl provider) in
  let c0 := snd (NewLimiter proxyCount ttl provider) in
  (forall ers, serve_all l ers c0 = ∅)
  /\ (forall e r c address,
         readAddress e = ParsedAddress address ->
         serve l e r c = mkWorld c [EvNext]).
Proof.
  intros Hoff l c0. split.
  - intros ers. change c0 with (∅ : Cache).
    induction ers as [|[e r] ers IH]; [done|].
    change (serve_all l ers (cache (serve l e r ∅)) = ∅).
    assert (Hc : cache (serve l e r ∅) = ∅).
    { apply (reachable_disabled l); [done|]. apply reachable_serve.
      apply reachable_new. }
    by rewrite Hc.
  - intros e r c address Ha. by apply (serve_disabled l e r c address).
Qed.

Lemma disabled_limiter_never_writes_witness :
  serve_all (fst (NewLimiter 2 0 "http://localhost:8545"))
    [(env_at 0 sample_address 5 StatusOK, example_request); (env_at 0 sample_address 5 StatusInternalServerError, request_from "8.8.8.8:4321")]
    (snd (NewLimiter 2 0 "http://localhost:8545"))
  = ∅.
Proof.
  assert (Hoff : 0 <= 0) by lia.
  apply (proj1 (disabled_limiter_never_writes 2 0 "http://localhost:8545"
                  Hoff)).
Defined.

(** X6: requests that are turned away leave no mark. If each request
    of a sequence has a live record for its address or for its client
    address in the cache [c], then serving them one after the other
    leaves the cache exactly [c], so that no expiry is pushed back by a
    retry (the cache is created with [SkipTTLExtensionOnHit(true)]); and
    each of them is answered by the rate-limit reply with status 429
    without the wrapped handler being called. *)
Theorem retries_leave_cache l c ers :
  0 < ttl l ->
  Forall (turned_away l c) ers ->
  serve_all l ers c = c
  /\ Forall (fun er =>
               cache (serve l (fst er) (snd er) c) = c
               /\ (EvNext ∉ trace (serve l (fst er) (snd er) c))
               /\ exists wait,
                   EvRender StatusTooManyRequests (rateLimitMessage wait)
                   ∈ trace (serve l (fst er) (snd er) c)) ers.
Proof.
  intros Hon Hall. induction Hall as [|[e r] ers Her Hall [IH1 IH2]].
  - by split.
  - pose proof (turned_away_outcome l e r c Hon Her) as Hout.
    split.
    + cbn [serve_all fst snd]. destruct Hout as [-> _]. exact IH1.
    + constructor; [exact Hout|exact IH2].
Qed.

Lemma retries_leave_cache_witness :
  serve_all sample_limiter
    [(sample_env true (Some 5) StatusOK, example_request);
     (sample_env true (Some 6) StatusOK, request_from "8.8.8.8:4321")]
    limited_cache
  = limited_cache.
Proof.
  assert (Hon : 0 < ttl sample_limiter) by reflexivity.
  refine (proj1 (retries_leave_cache sample_limiter limited_cache _ Hon _)).
  repeat constructor.
  - exists sample_address, "2.2.2.2". split; [reflexivity|].
    split; [reflexivity|]. left. vm_compute. eexists. reflexivity.
  - exists sample_address, "8.8.8.8". split; [reflexivity|].
    split; [reflexivity|]. left. vm_compute. eexists. reflexivity.
Defined.

(** X7: once a request has been admitted and its handler has replied
    with status 200, the cache it leaves turns away every later request
    that is for the same address and looks it up no later than the
    expiry of the address record, and every later request that comes
    from the same client address and looks it up no later than the
    expiry of the client record: such a request gets the rate-limit
    reply with status 429, its handler is not called and the cache is
    not changed. The expiry of the address record is counted from the
    second [SetWithTTL] when the address and the client address are the
    same string. *)
Theorem committed_blocks_followers l e r c address clientIP :
  passes l e r c address clientIP ->
  handler_succeeded e (serve l e r c) ->
  let c' := cache (serve l e r c) in
  forall e' r' address' clientIP',
    readAddress e' = ParsedAddress address' ->
    getClientIPFromRequest (proxyCount l) r' = Some clientIP' ->
    (address' = address
     /\ now_checkAddress e'
        <= (if decide (clientIP = address) then now_setClientIP e
            else now_setAddress e) + ttl l)
    \/ (clientIP' = clientIP
        /\ now_checkClientIP e' <= now_setClientIP e + ttl l) ->
    cache (serve l e' r' c') = c'
    /\ (EvNext ∉ trace (serve l e' r' c'))
    /\ exists wait,
        EvRender StatusTooManyRequests (rateLimitMessage wait)
        ∈ trace (serve l e' r' c').
Proof.
  intros Hp [Hnext Hok] c' e' r' a' ip' Ha' Hip' Hwhen.
  pose proof Hp as (Hon & Ha & Hip & H1 & H2).
  assert (Hc' : exists n, c' = Set_ (reserve l e address clientIP c)
                                (nonceKey address) (VUint64 n)).
  { subst c'. revert Hnext.
    destruct (serve_Served l e r c)
      as [| | | | |a ip Hp'|a ip Hp'|a ip n Hp'|a ip n Hp' ? ? ? Hko|a ip n Hp'];
      cbn [cache trace]; try (unfold admission; not_in_trace);
      try congruence; try lia.
    destruct Hp' as (_ & Ha2 & Hip2 & _).
    assert (a = address) as -> by congruence.
    assert (ip = clientIP) as -> by congruence.
    intros _. by exists n. }
  destruct Hc' as [n Hc'].
  apply turned_away_outcome; [done|].
  exists a', ip'. cbn. do 2 (split; [done|]).
  destruct Hwhen as [[-> Hle]|[-> Hle]].
  - left. eexists. apply getItem_live.
    + rewrite Hc'. unfold Set_.
      rewrite lookup_insert_ne by apply nonceKey_neq.
      by apply reserve_address.
    + unfold expired; cbn. apply Z.ltb_ge. lia.
  - right. rewrite Hc'. unfold Set_.
    destruct (decide (nonceKey address = clientIP)) as [<-|Hne].
    + eexists. apply getItem_live; [by rewrite lookup_insert_eq|done].
    + eexists. apply getItem_live.
      * rewrite lookup_insert_ne by done. by apply reserve_clientIP.
      * unfold expired; cbn. apply Z.ltb_ge. lia.
Qed.

Lemma committed_blocks_followers_witness :
  cache (serve sample_limiter (env_at 30 sample_address 6 StatusOK) (request_from "8.8.8.8:4321")
           (cache (serve sample_limiter (env_at 0 sample_address 5 StatusOK) (request_from "9.9.9.9:1234") ∅)))
  = cache (serve sample_limiter (env_at 0 sample_address 5 StatusOK) (request_from "9.9.9.9:1234") ∅).
Proof.
  refine (proj1 (committed_blocks_followers sample_limiter (env_at 0 sample_address 5 StatusOK) (request_from "9.9.9.9:1234") ∅
                   sample_address "9.9.9.9" _ _
                   (env_at 30 sample_address 6 StatusOK) (request_from "8.8.8.8:4321")
                   sample_address "8.8.8.8" _ _ _)).
  - repeat split; reflexivity.
  - split; [vm_compute; in_trace|reflexivity].
  - reflexivity.
  - reflexivity.
  - left. split; [reflexivity|]. vm_compute. discriminate.
Defined.

(** X9: taking a reservation back makes the address and the client
    address eligible at once. When an admitted request removes its
    address record (its nonce was the cached one, or its handler left a
    status other than 200), the cache it leaves is the cache it found
    with the keys of the address and of the client address deleted, and
    a request for the same address from the same client address passes
    the two lookups of [limitByKey] whenever it comes, without
    waiting for the TTL. *)
Theorem removal_restores_eligibility l e r c address clientIP :
  passes l e r c address clientIP ->
  EvRemove address ∈ trace (serve l e r c) ->
  let c' := cache (serve l e r c) in
  c' = delete clientIP (delete address c)
  /\ forall e' r',
      readAddress e' = ParsedAddress address ->
      getClientIPFromRequest (proxyCount l) r' = Some clientIP ->
      passes l e' r' c' address clientIP.
Proof.
  intros Hp Hrem c'. pose proof Hp as (Hon & Ha & Hip & H1 & H2).
  assert (Hc' : c' = Remove (Remove (reserve l e address clientIP c) address)
                       clientIP).
  { subst c'. revert Hrem.
    destruct (serve_Served l e r c)
      as [| | | | |a ip Hp'|a ip Hp'|a ip n Hp'|a ip n Hp'|a ip n Hp'];
      cbn [cache trace]; try (unfold admission; not_in_trace);
      try congruence; try lia;
      destruct Hp' as (_ & Ha2 & Hip2 & _);
      assert (a = address) as -> by congruence;
      assert (ip = clientIP) as -> by congruence; try done.
    all: unfold admission; intros H; exfalso;
      apply elem_of_app in H as [H|H];
      repeat (apply elem_of_cons in H as [H|H]; [discriminate H|]);
      try (by apply elem_of_nil in H).
    all: apply elem_of_cons in H as [H|H];
      [injection H as H; by destruct (nonceKey_neq address)|].
    all: repeat (apply elem_of_cons in H as [H|H]; [discriminate H|]);
      by apply elem_of_nil in H. }
  assert (Heq : c' = delete clientIP (delete address c)).
  { rewrite Hc'. unfold Remove, reserve, SetWithTTL. apply map_eq. intros k.
    destruct (decide (k = clientIP)) as [->|Hk1].
    { by rewrite !lookup_delete_eq. }
    rewrite !(lookup_delete_ne _ clientIP k) by done.
    destruct (decide (k = address)) as [->|Hk2].
    { by rewrite !lookup_delete_eq. }
    rewrite !(lookup_delete_ne _ address k) by done.
    by rewrite !lookup_insert_ne by done. }
  split; [done|].
  intros e' r' Ha' Hip'. rewrite Heq. repeat split; try done.
  - apply getItem_absent. rewrite lookup_delete.
    destruct (decide (clientIP = address)); [done|]. by rewrite lookup_delete_eq.
  - apply getItem_absent. by rewrite lookup_delete_eq.
Qed.

Lemma removal_restores_eligibility_witness :
  passes sample_limiter (env_at 1 sample_address 5 StatusOK) (request_from "9.9.9.9:1234")
    (cache (serve sample_limiter (env_at 0 sample_address 5 StatusInternalServerError) (request_from "9.9.9.9:1234") ∅))
    sample_address "9.9.9.9".
Proof.
  refine (proj2 (removal_restores_eligibility sample_limiter (env_at 0 sample_address 5 StatusInternalServerError) (request_from "9.9.9.9:1234") ∅
                   sample_address "9.9.9.9" _ _)
            (env_at 1 sample_address 5 StatusOK) (request_from "9.9.9.9:1234") _ _).
  - repeat split; reflexivity.
  - vm_compute. in_trace.
  - reflexivity.
  - reflexivity.
Defined.

End ServedPaths.

Section NoncePersistence.
Import ttlcache server Concurrent Serving.
Local Open Scope Z_scope.

(** One request: the record under the nonce key of [address] stays, or
    is replaced by the nonce a successful request for [address]
    fetched. *)
Lemma nonce_record_step l e r c address it :
  c !! nonceKey address = Some it -> expireAt it = None ->
  cache (serve l e r c) !! nonceKey address = Some it
  \/ exists n,
      readAddress e = ParsedAddress address
      /\ pendingNonce e = Some n
      /\ handler_succeeded e (serve l e r c)
      /\ cache (serve l e r c) !! nonceKey address
         = Some (mkItem (VUint64 n) None).
Proof.
  intros Hk He.
  destruct (serve_Served l e r c)
    as [| | | | |a ip Hp|a ip Hp|a ip n Hp|a ip n Hp|a ip n Hp Hd Hn Hs Hok];
    cbn [cache trace]; auto;
    destruct (passes_not_permanent l e r c a ip _ it Hp Hk He) as [Hna Hnip].
  1-2: left; by rewrite reserve_other.
  1-2: left; rewrite Remove_both_other by done; by rewrite reserve_other.
  unfold Set_. destruct (decide (nonceKey a = nonceKey address)) as [Heq|Hne].
  - right. exists n. apply nonceKey_inj in Heq. subst a.
    destruct Hp as (_ & Ha & _).
    split; [done|]. split; [done|]. split.
    + split; [in_trace|done].
    + by rewrite lookup_insert_eq.
  - left. rewrite lookup_insert_ne by done. by rewrite reserve_other.
Qed.

(** X10: requests served one after the other never remove a nonce
    record and never let it expire.  If the cache holds a record without
    expiry under ["nonce-" + address], then after any sequence of
    requests, each served to its end before the next, with any limiter,
    it still holds a record without expiry under that key: the same
    record, or the nonce that one of these requests for [address]
    fetched from the ledger.  The [Remove] calls of these requests do
    not reach the key, because a request whose address or client address
    is that key finds the record and is turned away by [limitByKey].
    Requests served concurrently are the matter of X17. *)
Theorem nonce_record_never_removed l ers c address it :
  c !! nonceKey address = Some it -> expireAt it = None ->
  exists it',
    serve_all l ers c !! nonceKey address = Some it'
    /\ expireAt it' = None
    /\ (it' = it
        \/ exists e r n,
            (e, r) ∈ ers
            /\ readAddress e = ParsedAddress address
            /\ pendingNonce e = Some n
            /\ it' = mkItem (VUint64 n) None).
Proof.
  revert c it. induction ers as [|[e r] ers IH]; intros c it Hk He.
  - exists it. auto.
  - change (serve_all l ((e, r) :: ers) c)
      with (serve_all l ers (cache (serve l e r c))).
    destruct (nonce_record_step l e r c address it Hk He)
      as [Hsame|(n & Ha & Hn & _ & Hnew)].
    + destruct (IH _ _ Hsame He) as (it' & H1 & H2 & H3).
      exists it'. split; [done|]. split; [done|].
      destruct H3 as [->|(e' & r' & n' & Hin & H)]; [by left|].
      right. exists e', r', n'. split; [by apply list_elem_of_further|done].
    + destruct (IH _ _ Hnew eq_refl) as (it' & H1 & H2 & H3).
      exists it'. split; [done|]. split; [done|]. right.
      destruct H3 as [->|(e' & r' & n' & Hin & H)].
      * exists e, r, n. split; [apply list_elem_of_here|done].
      * exists e', r', n'. split; [by apply list_elem_of_further|done].
Qed.

Lemma nonce_record_never_removed_witness :
  exists it',
    serve_all sample_limiter
      [(env_at 0 sample_address 5 StatusOK, request_from "9.9.9.9:1234"); (env_at 100 sample_address 6 StatusOK, request_from "9.9.9.9:1234")] nonce5_cache
    !! nonceKey sample_address = Some it'
    /\ expireAt it' = None
    /\ (it' = mkItem (VUint64 5) None
        \/ exists e r n,
            (e, r) ∈ [(env_at 0 sample_address 5 StatusOK, request_from "9.9.9.9:1234"); (env_at 100 sample_address 6 StatusOK, request_from "9.9.9.9:1234")]
            /\ readAddress e = ParsedAddress sample_address
            /\ pendingNonce e = Some n
            /\ it' = mkItem (VUint64 n) None).
Proof.
  apply (nonce_record_never_removed sample_limiter
           [(env_at 0 sample_address 5 StatusOK, request_from "9.9.9.9:1234"); (env_at 100 sample_address 6 StatusOK, request_from "9.9.9.9:1234")]
           nonce5_cache sample_address (mkItem (VUint64 5) None)).
  - reflexivity.
  - reflexivity.
Defined.

(** X11: with the limiter enabled, a request for an address whose
    nonce is cached reaches the wrapped handler only if the ledger
    answered with a pending nonce, and that nonce differs from the
    cached one. *)
Theorem handler_needs_new_nonce l e r c address n :
  0 < ttl l ->
  readAddress e = ParsedAddress address ->
  c !! nonceKey address = Some (mkItem (VUint64 n) None) ->
  EvNext ∈ trace (serve l e r c) ->
  exists n', pendingNonce e = Some n' /\ n' <> n.
Proof.
  intros Hon Ha Hk.
  destruct (serve_Served l e r c)
    as [| | | | |a ip Hp|a ip Hp|a ip m Hp|a ip m Hp Hd Hn Hs|a ip m Hp Hd Hn Hs];
    cbn [cache trace]; try (unfold admission; not_in_trace);
    try (intros _; lia).
  all: intros _; exists m; split; [done|]; intros ->; apply Hs.
  all: destruct (passes_not_permanent l e r c a ip _ _ Hp Hk eq_refl)
         as [Hna Hnip].
  all: destruct Hp as (_ & Ha2 & _); assert (a = address) as -> by congruence.
  all: rewrite Get_reserve_other by done.
  all: unfold Get; by rewrite (getItem_no_expiry c _ _ _ Hk eq_refl).
Qed.

Lemma handler_needs_new_nonce_witness :
  exists n',
    pendingNonce (env_at 0 sample_address 6 StatusOK) = Some n' /\ n' <> 5.
Proof.
  refine (handler_needs_new_nonce sample_limiter
            (env_at 0 sample_address 6 StatusOK) (request_from "9.9.9.9:1234") nonce5_cache
            sample_address 5 _ _ _ _).
  - reflexivity.
  - reflexivity.
  - reflexivity.
  - vm_compute. in_trace.
Defined.

End NoncePersistence.

Section Forged.
Import GoStrings GoNet ttlcache server Concurrent Serving.
Local Open Scope Z_scope.

Lemma Split_app_sep a b sep :
  Split (a ++ String sep b)%string sep = (Split a sep ++ Split b sep)%list.
Proof.
  induction a as [|x a IH]; simpl.
  - by rewrite byte_eqb_refl.
  - rewrite IH. destruct (byte_eqb x sep); [done|].
    pose proof (Split_length_pos a sep) as Hlen.
    destruct (Split a sep) as [|p ps]; [simpl in Hlen; lia|done].
Qed.

(** X4: with [proxyCount] proxies configured, whatever a client puts in
    front of the header does not change the client address. If the
    X-Forwarded-For value is [forged], a comma, and a tail [trusted] of
    exactly [proxyCount] comma-separated entries, then
    [getClientIPFromRequest] returns the first entry of [trusted],
    trimmed, for every [forged] and every remote address. *)
Theorem forged_prefix_ignored proxyCount r forged trusted :
  0 < proxyCount ->
  forwardedFor r = (forged ++ String "," trusted)%string ->
  length (Split trusted ",") = Z.to_nat proxyCount ->
  getClientIPFromRequest proxyCount r
  = Some (TrimSpace (hd EmptyString (Split trusted ","))).
Proof.
  intros Hpc Hx Hlen.
  assert (Hne : forwardedFor r <> EmptyString).
  { rewrite Hx. by destruct forged. }
  destruct (getClientIPFromRequest_forwarded proxyCount r Hpc Hne)
    as (tok & Htok & ->).
  f_equal. f_equal. rewrite Hx, Split_app_sep in Htok.
  rewrite length_app, Hlen in Htok.
  replace (Z.to_nat (Z.max 0 (Z.of_nat (length (Split forged ",")
                                         + Z.to_nat proxyCount) - proxyCount)))
    with (length (Split forged ",") + 0)%nat in Htok by lia.
  rewrite lookup_app_r in Htok by lia.
  replace (length (Split forged ",") + 0 - length (Split forged ","))%nat
    with 0%nat in Htok by lia.
  destruct (Split trusted ",") as [|t ts]; [done|]. by injection Htok as <-.
Qed.

Lemma forged_prefix_ignored_witness :
  getClientIPFromRequest 2
    (forwarded "6.6.6.6, 7.7.7.7, 2.2.2.2, 3.3.3.3" "9.9.9.9:1234")
  = Some "2.2.2.2"%string.
Proof.
  assert (Hpc : 0 < 2) by lia.
  exact (forged_prefix_ignored 2
           (forwarded "6.6.6.6, 7.7.7.7, 2.2.2.2, 3.3.3.3" "9.9.9.9:1234")
           "6.6.6.6, 7.7.7.7" " 2.2.2.2, 3.3.3.3" Hpc eq_refl eq_refl).
Defined.

End Forged.

Section Mutex.
Import ttlcache server Concurrent Serving.
Local Open Scope Z_scope.

(** What a step does to the mutex: it takes it, or releases it, or
    leaves it alone, and the request is between [Lock] and [Unlock]
    accordingly. *)
Lemma thread_step_lock l t s t' s' :
  thread_step l t s = Some (t', s') ->
  (in_critical t = false /\ in_critical t' = true
   /\ s_locked s = false /\ s_locked s' = true)
  \/ (in_critical t = true /\ in_critical t' = false /\ s_locked s' = false)
  \/ (in_critical t' = in_critical t /\ s_locked s' = s_locked s).
Proof. intros Hstep. step_cases t Hstep; auto 10. Qed.

Lemma thread_step_rank l t s t' s' :
  thread_step l t s = Some (t', s') ->
  (rank (t_pc t') < rank (t_pc t))%nat.
Proof. intros Hstep. step_cases t Hstep; lia. Qed.

(** A request that has not returned can step, unless it waits for a
    mutex that is held. *)
Lemma thread_can_step l t s :
  returned t = false ->
  (t_pc t = pLock -> s_locked s = false) ->
  exists t' s', thread_step l t s = Some (t', s').
Proof.
  destruct t as [e r pc a ip n tr]. unfold returned, thread_step. cbn.
  intros Hret Hlock.
  destruct pc; try discriminate Hret;
    try (rewrite Hlock by done);
    repeat match goal with
      | |- context [match ?x with _ => _ end] => destruct x
      end; eauto.
Qed.

Lemma critical_not_returned t : in_critical t = true -> returned t = false.
Proof. unfold in_critical, returned. by destruct (t_pc t). Qed.

Lemma critical_not_pLock t : in_critical t = true -> t_pc t <> pLock.
Proof. unfold in_critical. by destruct (t_pc t). Qed.

Lemma LockInv_initial c ers : LockInv (initial c ers).
Proof.
  assert (Hspawn : forall i t,
             pool (initial c ers) !! i = Some t -> in_critical t = false).
  { intros i t. cbn. change (map spawn ers) with (spawn <$> ers).
    rewrite list_lookup_fmap. destruct (ers !! i); [|done]. by intros [= <-]. }
  constructor.
  - done.
  - intros _. exact Hspawn.
  - intros i j ti tj Hi Hj Hci. by rewrite (Hspawn i ti Hi) in Hci.
Qed.

Lemma LockInv_step l S i S' :
  LockInv S -> step_at l i S = Some S' -> LockInv S'.
Proof.
  intros HI Hs. unfold step_at in Hs.
  destruct (pool S !! i) as [t|] eqn:Hti; [|done].
  destruct (thread_step l t (shared S)) as [[t' s']|] eqn:Hth; [|done].
  injection Hs as <-.
  assert (Hlt : (i < length (pool S))%nat) by (eapply lookup_lt_Some; eauto).
  assert (Hlook_i : <[i:=t']> (pool S) !! i = Some t')
    by (by apply list_lookup_insert_eq).
  assert (Hlook_ne : forall j, j <> i ->
                               <[i:=t']> (pool S) !! j = pool S !! j)
    by (intros j Hne; by apply list_lookup_insert_ne).
  assert (Hlook : forall j tj,
             <[i:=t']> (pool S) !! j = Some tj ->
             (j = i /\ tj = t') \/ (j <> i /\ pool S !! j = Some tj)).
  { intros j tj Hj. destruct (decide (j = i)) as [->|Hne].
    - rewrite Hlook_i in Hj. injection Hj as <-. by left.
    - rewrite Hlook_ne in Hj by done. by right. }
  assert (Hothers : in_critical t = true ->
                    forall j tj, j <> i -> pool S !! j = Some tj ->
                                 in_critical tj = false).
  { intros Hc j tj Hne Hj. destruct (in_critical tj) eqn:Hcj; [|done].
    destruct Hne. by apply (lock_one S HI j i tj t). }
  destruct (thread_step_lock l t _ t' s' Hth)
    as [(Hc & Hc' & Hu & Hl')|[(Hc & Hc' & Hu')|(Hc' & Hl')]];
    constructor; cbn [pool shared].
  - intros _. by exists i, t'.
  - intros Hu'. congruence.
  - intros j k tj tk Hj Hk Hcj Hck.
    destruct (Hlook _ _ Hj) as [[-> ->]|[Hnej Hj']],
             (Hlook _ _ Hk) as [[-> ->]|[Hnek Hk']]; [done| | |].
    + by rewrite (lock_free S HI Hu k tk Hk') in Hck.
    + by rewrite (lock_free S HI Hu j tj Hj') in Hcj.
    + by rewrite (lock_free S HI Hu k tk Hk') in Hck.
  - intros Hl'. congruence.
  - intros _ j tj Hj. destruct (Hlook _ _ Hj) as [[-> ->]|[Hne Hj']]; [done|].
    by apply (Hothers Hc j).
  - intros j k tj tk Hj Hk Hcj Hck.
    destruct (Hlook _ _ Hj) as [[-> ->]|[Hnej Hj']],
             (Hlook _ _ Hk) as [[-> ->]|[Hnek Hk']]; [done| | |].
    + congruence.
    + congruence.
    + by rewrite (Hothers Hc k tk Hnek Hk') in Hck.
  - rewrite Hl'. intros Hl. destruct (lock_held S HI Hl) as (j & tj & Hj & Hcj).
    destruct (decide (j = i)) as [->|Hne].
    + exists i, t'. split; [done|]. rewrite Hti in Hj. injection Hj as <-.
      by rewrite Hc'.
    + exists j, tj. by rewrite Hlook_ne.
  - rewrite Hl'. intros Hu j tj Hj.
    destruct (Hlook _ _ Hj) as [[-> ->]|[Hne Hj']].
    + rewrite Hc'. by apply (lock_free S HI Hu i).
    + by apply (lock_free S HI Hu j).
  - intros j k tj tk Hj Hk Hcj Hck.
    destruct (Hlook _ _ Hj) as [[-> ->]|[Hnej Hj']],
             (Hlook _ _ Hk) as [[-> ->]|[Hnek Hk']]; [done| | |].
    + rewrite Hc' in Hcj. by apply (lock_one S HI i k t tk).
    + rewrite Hc' in Hck. by apply (lock_one S HI j i tj t).
    + by apply (lock_one S HI j k tj tk).
Qed.

Lemma LockInv_reaches l c ers S :
  reaches l (initial c ers) S -> LockInv S.
Proof.
  intros H.
  apply (rtc_ind_r (R := step l) (fun S => LockInv S) (initial c ers));
    [apply LockInv_initial | | exact H].
  intros S1 S2 _ [i Hi] IH. eapply LockInv_step; eauto.
Qed.

(** X14: the mutex of the limiter, for any number of requests served
    concurrently from any cache and under any interleaving: at most one
    request is between [Lock] and [Unlock]; the mutex is held exactly
    when some request is there; and once every request has returned
    the mutex is free. *)
Theorem mutex_held_by_one l c ers S :
  reaches l (initial c ers) S ->
  (forall i j ti tj,
      pool S !! i = Some ti -> pool S !! j = Some tj ->
      in_critical ti = true -> in_critical tj = true -> i = j)
  /\ (s_locked (shared S) = true <->
      exists i t, pool S !! i = Some t /\ in_critical t = true)
  /\ (all_returned S -> s_locked (shared S) = false).
Proof.
  intros Hr. pose proof (LockInv_reaches l c ers S Hr) as HI.
  split; [apply (lock_one S HI)|]. split.
  - split; [apply (lock_held S HI)|].
    intros (i & t & Hi & Hc). destruct (s_locked (shared S)) eqn:Hl; [done|].
    by rewrite (lock_free S HI Hl i t Hi) in Hc.
  - intros Hret. destruct (s_locked (shared S)) eqn:Hl; [|done].
    destruct (lock_held S HI Hl) as (i & t & Hi & Hc).
    unfold all_returned in Hret. rewrite Forall_lookup in Hret.
    pose proof (Hret i t Hi) as Hrt.
    by rewrite (critical_not_returned t Hc) in Hrt.
Qed.

Lemma mutex_held_by_one_witness :
  s_locked (shared (run_to sample_limiter first_holds_mutex
                      (initial ∅ (racing StatusOK)))) = true
  <-> exists i t,
        pool (run_to sample_limiter first_holds_mutex
                (initial ∅ (racing StatusOK))) !! i = Some t
        /\ in_critical t = true.
Proof.
  refine (proj1 (proj2 (mutex_held_by_one sample_limiter ∅
                          (racing StatusOK) _ _))).
  apply (run_schedule_reaches _ first_holds_mutex). vm_compute. reflexivity.
Defined.

Lemma steps_left_insert ts i t t' :
  ts !! i = Some t ->
  (steps_left (<[i:=t']> ts) + rank (t_pc t)
   = steps_left ts + rank (t_pc t'))%nat.
Proof.
  revert i. induction ts as [|t0 ts IH]; intros [|i]; try done.
  - intros [= ->]. cbn. lia.
  - intros H. specialize (IH i H).
    change ((rank (t_pc t0) + steps_left (<[i:=t']> ts) + rank (t_pc t)
             = rank (t_pc t0) + steps_left ts + rank (t_pc t'))%nat).
    lia.
Qed.

Lemma steps_left_initial c ers :
  steps_left (pool (initial c ers)) = (13 * length ers)%nat.
Proof. cbn. induction ers as [|er ers IH]; cbn in *; lia. Qed.

Lemma step_at_steps_left l i S S' :
  step_at l i S = Some S' ->
  (steps_left (pool S') < steps_left (pool S))%nat.
Proof.
  unfold step_at. destruct (pool S !! i) as [t|] eqn:Hti; [|done].
  destruct (thread_step l t (shared S)) as [[t' s']|] eqn:Hth; [|done].
  intros [= <-]. cbn [pool].
  pose proof (steps_left_insert (pool S) i t t' Hti).
  pose proof (thread_step_rank l t _ t' s' Hth). lia.
Qed.

Lemma run_schedule_steps_left l sched S S' :
  run_schedule l sched S = Some S' ->
  (length sched + steps_left (pool S') <= steps_left (pool S))%nat.
Proof.
  revert S. induction sched as [|i sched IH]; intros S; cbn.
  - intros [= <-]. lia.
  - destruct (step_at l i S) as [S1|] eqn:Hs; [|done]. intros H.
    specialize (IH S1 H). pose proof (step_at_steps_left l i S S1 Hs). lia.
Qed.

(** X15: the requests never block each other for good. In every state
    that concurrent requests can reach, if some request has not
    returned then some request can take a step: the only call that
    waits is [Lock], and when the mutex is held its holder can go
    on. *)
Theorem requests_never_deadlock l c ers S :
  reaches l (initial c ers) S ->
  Exists (fun t => returned t = false) (pool S) ->
  exists i S', step_at l i S = Some S'.
Proof.
  intros Hr Hex. pose proof (LockInv_reaches l c ers S Hr) as HI.
  apply Exists_exists in Hex as (t & Hin & Hret).
  apply list_elem_of_lookup in Hin as [j Hj].
  assert (Hgo : exists i t0,
             pool S !! i = Some t0 /\ returned t0 = false
             /\ (t_pc t0 = pLock -> s_locked (shared S) = false)).
  { destruct (s_locked (shared S)) eqn:Hl.
    - destruct (lock_held S HI Hl) as (i & t0 & Hi & Hc).
      exists i, t0. split; [done|].
      split; [by apply critical_not_returned|].
      intros Hpc. by destruct (critical_not_pLock t0 Hc).
    - by exists j, t. }
  destruct Hgo as (i & t0 & Hi & Hret0 & Hlock).
  destruct (thread_can_step l t0 (shared S) Hret0 Hlock) as (t' & s' & Hstep).
  exists i. eexists. unfold step_at. by rewrite Hi, Hstep.
Qed.

Lemma requests_never_deadlock_witness :
  exists i S',
    step_at sample_limiter i
      (run_to sample_limiter first_holds_mutex (initial ∅ (racing StatusOK)))
    = Some S'.
Proof.
  refine (requests_never_deadlock sample_limiter ∅ (racing StatusOK) _ _ _).
  - apply (run_schedule_reaches _ first_holds_mutex). vm_compute. reflexivity.
  - apply Exists_cons_hd. reflexivity.
Defined.

(** Along a schedule, the steps a request takes are paid for by its
    rank. *)
Lemma run_schedule_rank l sched S S' i t' :
  run_schedule l sched S = Some S' ->
  pool S' !! i = Some t' ->
  exists t,
    pool S !! i = Some t
    /\ (count_occ Nat.eq_dec sched i + rank (t_pc t') <= rank (t_pc t))%nat.
Proof.
  revert S. induction sched as [|j sched IH]; intros S.
  - intros [= <-] Hi. exists t'. split; [done|]. cbn. lia.
  - cbn [run_schedule]. destruct (step_at l j S) as [S1|] eqn:Hs; [|done].
    intros Hrun Hi. destruct (IH S1 Hrun Hi) as (t1 & Hi1 & Hle).
    unfold step_at in Hs.
    destruct (pool S !! j) as [tj|] eqn:Htj; [|done].
    destruct (thread_step l tj (shared S)) as [[tj' s']|] eqn:Hth; [|done].
    injection Hs as <-. cbn [pool] in Hi1.
    destruct (decide (j = i)) as [->|Hne].
    + rewrite list_lookup_insert_eq in Hi1
        by (eapply lookup_lt_Some; eauto).
      injection Hi1 as <-. exists tj. split; [done|].
      pose proof (thread_step_rank l tj _ tj' s' Hth).
      rewrite count_occ_cons_eq by done. lia.
    + rewrite list_lookup_insert_ne in Hi1 by done.
      exists t1. split; [done|]. by rewrite count_occ_cons_neq.
Qed.

(** X16: [Limiter.ServeHTTP] has no loop.  Whatever the interleaving, a
    request takes at most 13 steps, one for each call it makes of the
    mutex, the cache, the ledger, the handler and the reply; so a
    schedule that the requests follow from the start has at most 13
    steps for each request, and a request with no step left has
    returned.  This bounds what a request does; whether [Dial],
    [PendingNonceAt] and the handler come back is not in question
    here. *)
Theorem requests_take_at_most_13_steps l c ers sched S :
  run_schedule l sched (initial c ers) = Some S ->
  (forall i t,
      pool S !! i = Some t ->
      (count_occ Nat.eq_dec sched i + rank (t_pc t) <= 13)%nat)
  /\ (length sched + steps_left (pool S) <= 13 * length ers)%nat
  /\ (steps_left (pool S) = 0%nat -> all_returned S).
Proof.
  intros H. split; [|split].
  - intros i t Hi.
    destruct (run_schedule_rank l sched _ S i t H Hi) as (t0 & Hi0 & Hle).
    cbn in Hi0. change (map spawn ers) with (spawn <$> ers) in Hi0.
    rewrite list_lookup_fmap in Hi0.
    destruct (ers !! i); [|done]. injection Hi0 as <-. cbn in Hle. lia.
  - rewrite <- (steps_left_initial c ers).
    by apply (run_schedule_steps_left l).
  - unfold all_returned. generalize (pool S). intros ts.
    induction ts as [|t ts IH]; cbn; [constructor|].
    intros Hz. constructor.
    + unfold returned. destruct (t_pc t); cbn in Hz; try lia; done.
    + apply IH. unfold steps_left. lia.
Qed.

Lemma requests_take_at_most_13_steps_witness :
  (length first_blocks_second
   + steps_left (pool (run_to sample_limiter first_blocks_second
                         (initial ∅ (racing StatusOK))))
   <= 13 * length (racing StatusOK))%nat.
Proof.
  refine (proj1 (proj2 (requests_take_at_most_13_steps sample_limiter ∅
                          (racing StatusOK) first_blocks_second _ _))).
  vm_compute. reflexivity.
Defined.

End Mutex.

Section StoreAndPeers.
Import GoStrings GoNet ttlcache server Concurrent Serving.
Local Open Scope Z_scope.

Lemma well_kept_reserve l e address clientIP c :
  0 < ttl l -> well_kept c -> well_kept (reserve l e address clientIP c).
Proof.
  intros Hon Hc key it. unfold reserve, SetWithTTL.
  destruct (Z.ltb_spec 0 (ttl l)); [|lia].
  rewrite !lookup_insert.
  repeat case_decide; try (intros [= <-]; left; eauto). apply Hc.
Qed.

Lemma well_kept_Remove c key : well_kept c -> well_kept (Remove c key).
Proof.
  intros Hc k it. unfold Remove. rewrite lookup_delete.
  case_decide; [done|apply Hc].
Qed.

(** X12: in every cache that the limiter can reach from the empty one
    it is created with, each record is either the mark [true] with an
    expiry, as [SetWithTTL] writes it, or an unsigned nonce without
    expiry stored under a key ["nonce-" + address], as [Set] writes it.
    So every record without expiry is a nonce under a nonce key, and
    every record under a key that is not of that form is a mark that
    expires.  A mark may sit under a nonce key: a client address can be
    such a string. *)
Theorem reachable_well_kept l c : reachable l c -> well_kept c.
Proof.
  induction 1 as [|c e r _ IH].
  - intros key it. by rewrite lookup_empty.
  - destruct (serve_Served l e r c)
      as [| | | | |a ip Hp|a ip Hp|a ip n Hp|a ip n Hp|a ip n Hp];
      cbn [cache]; try done;
      destruct Hp as (Hon & _).
    + by apply well_kept_reserve.
    + by apply well_kept_reserve.
    + by do 2 apply well_kept_Remove; apply well_kept_reserve.
    + by do 2 apply well_kept_Remove; apply well_kept_reserve.
    + intros key it. unfold Set_. rewrite lookup_insert. case_decide.
      * intros [= <-]. right. eauto.
      * by apply well_kept_reserve.
Qed.

Lemma reachable_well_kept_witness :
  well_kept (cache (serve sample_limiter (env_at 0 sample_address 5 StatusOK) (request_from "9.9.9.9:1234") ∅)).
Proof.
  apply (reachable_well_kept sample_limiter).
  apply reachable_serve, reachable_new.
Defined.

(** X8: a reservation that is not taken back ends by itself. When a
    request was admitted and its two records were not removed (the
    ledger could not be asked, or the handler replied with status 200),
    a later request for the same address from the same client address
    passes the two lookups of [limitByKey] again as soon as it looks
    the records up after their expiry, that is more than the TTL after
    they were written. The client address must not be the string
    ["nonce-" + address]: the nonce written under that key has no
    expiry. *)
Theorem reservation_expires l e r c address clientIP :
  passes l e r c address clientIP ->
  EvRemove address ∉ trace (serve l e r c) ->
  clientIP <> nonceKey address ->
  let c' := cache (serve l e r c) in
  forall e' r',
    readAddress e' = ParsedAddress address ->
    getClientIPFromRequest (proxyCount l) r' = Some clientIP ->
    (if decide (clientIP = address) then now_setClientIP e
     else now_setAddress e) + ttl l < now_checkAddress e' ->
    now_setClientIP e + ttl l < now_checkClientIP e' ->
    passes l e' r' c' address clientIP.
Proof.
  intros Hp Hnr Hne c' e' r' Ha' Hip' Hta Htip.
  pose proof Hp as (Hon & Ha & Hip & H1 & H2).
  assert (Hc' : c' !! address = reserve l e address clientIP c !! address
                /\ c' !! clientIP = reserve l e address clientIP c !! clientIP).
  { subst c'. revert Hnr.
    destruct (serve_Served l e r c)
      as [| | | | |a ip Hp'|a ip Hp'|a ip n Hp'|a ip n Hp'|a ip n Hp'];
      cbn [cache trace]; try congruence; try lia;
      destruct Hp' as (_ & Ha2 & Hip2 & _);
      assert (a = address) as -> by congruence;
      assert (ip = clientIP) as -> by congruence; try done.
    - intros Hnr. destruct Hnr. in_trace.
    - intros Hnr. destruct Hnr. in_trace.
    - intros _. unfold Set_. split.
      + rewrite lookup_insert_ne; [done|apply nonceKey_neq].
      + rewrite lookup_insert_ne; [done|by apply not_eq_sym]. }
  destruct Hc' as [Hca Hcip].
  repeat split; try done.
  - unfold getItem. rewrite Hca, reserve_address by done.
    unfold expired; cbn.
    match goal with |- context [?a <? ?b] =>
      destruct (Z.ltb_spec a b); [done|lia] end.
  - unfold getItem. rewrite Hcip, reserve_clientIP by done.
    unfold expired; cbn.
    match goal with |- context [?a <? ?b] =>
      destruct (Z.ltb_spec a b); [done|lia] end.
Qed.

Lemma reservation_expires_witness :
  passes sample_limiter (env_at 61 sample_address 6 StatusOK) (request_from "9.9.9.9:1234")
    (cache (serve sample_limiter (env_at 0 sample_address 5 StatusOK) (request_from "9.9.9.9:1234") ∅))
    sample_address "9.9.9.9".
Proof.
  refine (reservation_expires sample_limiter (env_at 0 sample_address 5 StatusOK) (request_from "9.9.9.9:1234") ∅
            sample_address "9.9.9.9" _ _ _
            (env_at 61 sample_address 6 StatusOK) (request_from "9.9.9.9:1234") _ _ _ _).
  - repeat split; reflexivity.
  - vm_compute. not_in_trace.
  - discriminate.
  - reflexivity.
  - reflexivity.
  - vm_compute. reflexivity.
  - vm_compute. reflexivity.
Defined.

Lemma append_length a b :
  String.length (a ++ b)%string = (String.length a + String.length b)%nat.
Proof. induction a as [|x a IH]; simpl; [done|]. by rewrite IH. Qed.

Lemma append_snoc a x s :
  ((a ++ String x EmptyString) ++ s)%string = (a ++ String x s)%string.
Proof.
  induction a as [|y a IH]; [done|].
  change (String y ((a ++ String x EmptyString) ++ s)
          = String y (a ++ String x s))%string.
  by rewrite IH.
Qed.

Lemma IndexByte_app_first a c s :
  IndexByte a c = None ->
  IndexByte (a ++ String c s)%string c = Some (String.length a).
Proof.
  induction a as [|x a IH]; simpl.
  - by rewrite byte_eqb_refl.
  - destruct (byte_eqb x c); [done|].
    destruct (IndexByte a c); [done|]. intros _. by rewrite IH.
Qed.

(** A host in brackets followed by a colon and a plain port splits into
    the host without the brackets and the port. *)
Lemma SplitHostPort_bracketed host port :
  IndexByte host "[" = None -> IndexByte host "]" = None ->
  IndexByte port ":" = None -> IndexByte port "[" = None ->
  IndexByte port "]" = None ->
  SplitHostPort (String "[" (host ++ String "]" (String ":" port)))%string
  = inl (host, port).
Proof.
  intros Hh1 Hh2 Hp1 Hp2 Hp3. unfold SplitHostPort.
  set (rest := (host ++ String "]" (String ":" port))%string).
  assert (Hrest : rest
                  = ((host ++ String "]" EmptyString) ++ String ":" port)%string)
    by (symmetry; apply append_snoc).
  assert (Hhost : String.length (host ++ String "]" EmptyString)%string
                  = (String.length host + 1)%nat)
    by (by rewrite append_length).
  assert (Hlast : LastIndexByte (String "[" rest) ":"
                  = Some (S (String.length host + 1))).
  { cbn [LastIndexByte].
    by rewrite Hrest, (LastIndexByte_sep _ _ _ Hp1), Hhost. }
  rewrite Hlast.
  change (is_byte (byte_at 0 (String "[" rest)) "[") with true. cbv iota.
  assert (Hclose : IndexByte (String "[" rest) "]"
                   = Some (S (String.length host))).
  { cbn [IndexByte]. change (byte_eqb "[" "]") with false. cbv iota.
    subst rest. by rewrite (IndexByte_app_first _ _ _ Hh2). }
  rewrite Hclose.
  assert (Hlen : String.length (String "[" rest)
                 = (String.length host + 3 + String.length port)%nat).
  { subst rest. cbn [String.length]. rewrite append_length.
    cbn [String.length]. lia. }
  rewrite Hlen.
  destruct (Nat.eqb_spec (S (String.length host) + 1)
              (String.length host + 3 + String.length port)); [lia|].
  destruct (Nat.eqb_spec (S (String.length host) + 1)
              (S (String.length host + 1))); [|lia].
  unfold finish, slice.
  replace (S (String.length host) - 1)%nat with (String.length host) by lia.
  change (drop_bytes 1 (String "[" rest)) with rest.
  replace (S (String.length host) + 1)%nat
    with (S (String.length host + 1)) by lia.
  change (drop_bytes (S (String.length host + 1)) (String "[" rest))
    with (drop_bytes (String.length host + 1) rest).
  replace (S (String.length host + 1) + 1)%nat
    with (S (String.length (host ++ String "]" EmptyString)%string + 1))
    by (rewrite Hhost; lia).
  change (drop_bytes
            (S (String.length (host ++ String "]" EmptyString)%string + 1))
            (String "[" rest))
    with (drop_bytes
            (String.length (host ++ String "]" EmptyString)%string + 1) rest).
  rewrite Hrest at 4. rewrite drop_bytes_sep.
  subst rest.
  rewrite take_bytes_app, drop_bytes_sep.
  rewrite (IndexByte_app_None host _ "[" Hh1)
    by (cbn [IndexByte]; change (byte_eqb "]" "[") with false;
        change (byte_eqb ":" "[") with false; by rewrite Hp2).
  cbn [found IndexByte]. change (byte_eqb ":" "]") with false.
  by rewrite Hp3.
Qed.

(** X5: without a proxy count, or without the header, a remote address
    of the form [[host]:port], the form of an IPv6 peer, gives the host
    without the brackets and without the port as client address,
    whatever colons the host contains. *)
Theorem remote_address_bracketed proxyCount r host port :
  proxyCount <= 0 \/ forwardedFor r = EmptyString ->
  RemoteAddr r = (String "[" (host ++ String "]" (String ":" port)))%string ->
  IndexByte host "[" = None -> IndexByte host "]" = None ->
  IndexByte port ":" = None -> IndexByte port "[" = None ->
  IndexByte port "]" = None ->
  getClientIPFromRequest proxyCount r = Some host.
Proof.
  intros Hno Hr Hh1 Hh2 Hp1 Hp2 Hp3.
  rewrite (getClientIPFromRequest_remote proxyCount r Hno).
  unfold Spec.hostPortion. rewrite Hr.
  by rewrite (SplitHostPort_bracketed host port Hh1 Hh2 Hp1 Hp2 Hp3).
Qed.

Lemma remote_address_bracketed_witness :
  getClientIPFromRequest 0 (request_from "[2001:db8::1]:54321")
  = Some "2001:db8::1"%string.
Proof.
  assert (Hno : 0 <= 0 \/ forwardedFor (request_from "[2001:db8::1]:54321")
                           = EmptyString) by (left; lia).
  exact (remote_address_bracketed 0 (request_from "[2001:db8::1]:54321")
           "2001:db8::1" "54321" Hno eq_refl eq_refl eq_refl eq_refl eq_refl
           eq_refl).
Defined.

End StoreAndPeers.

(** ** A nonce record and the requests in flight *)

Section NonceInterleaved.
Import ttlcache server Concurrent Serving.
Local Open Scope Z_scope.

Lemma kept_found key it c now :
  kept key it c -> GetWithTTL c now key <> None.
Proof.
  intros (it' & Hk & He & _).
  by rewrite (GetWithTTL_getItem_Some c now key it'
                (getItem_no_expiry c now key it' Hk He)).
Qed.

Lemma kept_SetWithTTL key it c now k v d :
  k <> key -> kept key it c -> kept key it (SetWithTTL c now k v d).
Proof.
  intros Hne (it' & Hk & H). exists it'. split; [|done].
  unfold SetWithTTL. by rewrite lookup_insert_ne.
Qed.

Lemma kept_Remove key it c k :
  k <> key -> kept key it c -> kept key it (Remove c k).
Proof.
  intros Hne (it' & Hk & H). exists it'. split; [|done].
  unfold Remove. by rewrite lookup_delete_ne.
Qed.

Lemma kept_Set key it c k n :
  kept key it c -> kept key it (Set_ c k (VUint64 n)).
Proof.
  intros (it' & Hk & H). unfold Set_.
  destruct (decide (k = key)) as [->|Hne].
  - exists (mkItem (VUint64 n) None). rewrite lookup_insert_eq. eauto.
  - exists it'. by rewrite lookup_insert_ne.
Qed.

(** A step of a request keeps the record: the request does not write or
    remove under a key it has found free, and the key of the record is
    never found free. *)
Lemma thread_step_kept l t s t' s' key it :
  thread_step l t s = Some (t', s') ->
  clear_of key t -> kept key it (s_cache s) ->
  clear_of key t' /\ kept key it (s_cache s').
Proof.
  intros Hstep Hc Hk.
  destruct t as [e r pc a ip n tr]. unfold thread_step in Hstep.
  unfold clear_of in *.
  cbn -[SetWithTTL Remove Set_ GetWithTTL Get getClientIPFromRequest]
    in Hstep, Hc.
  destruct pc;
    repeat match goal with
      | H' : context [match ?x with _ => _ end] |- _ => destruct x eqn:?
      end;
    try discriminate;
    match goal with H : Some _ = Some _ |- _ => injection H as <- <- end;
    cbn -[SetWithTTL Remove Set_ GetWithTTL Get getClientIPFromRequest];
    try (split; [done|done]).
  all: try (split; [done|];
            first [apply kept_SetWithTTL | apply kept_Remove
                  | apply kept_Set]; tauto).
  - split; [|done]. intros ->. eapply kept_found; eassumption.
  - split; [|done]. split; [done|]. intros ->.
    eapply kept_found; eassumption.
Qed.

Lemma kept_initial l c ers key it S :
  kept key it c ->
  reaches l (initial c ers) S ->
  kept key it (s_cache (shared S)) /\ Forall (clear_of key) (pool S).
Proof.
  intros Hk Hr.
  apply (rtc_ind_r (R := step l)
           (fun S => kept key it (s_cache (shared S))
                     /\ Forall (clear_of key) (pool S))
           (initial c ers)); [| |exact Hr].
  - split; [done|]. clear Hr. cbn.
    induction ers as [|er ers IH]; cbn; constructor; done.
  - intros S1 S2 _ [i Hi] [IHk IHc]. unfold step_at in Hi.
    destruct (pool S1 !! i) as [t|] eqn:Hti; [|done].
    destruct (thread_step l t (shared S1)) as [[t' s']|] eqn:Hth; [|done].
    injection Hi as <-. cbn [pool shared].
    destruct (thread_step_kept l t _ t' s' key it Hth
                (Forall_lookup_1 _ _ _ _ IHc Hti) IHk) as [Hc' Hk'].
    split; [done|]. by apply Forall_insert.
Qed.

(** X17: a nonce record that is in the cache when the requests arrive
    survives every interleaving of them.  If the cache holds a record
    without expiry under ["nonce-" + address] before any of the requests
    has started, then in every state that any number of requests served
    concurrently can reach it holds a record without expiry under that
    key: the same record, or a nonce that [Set] stored since.  No request
    removes it or puts a mark in its place: a request whose address or
    client address is that key finds the record in [limitByKey] and is
    turned away.  A nonce that is first stored while other requests are
    in flight is not protected in this way; the example after the
    theorem has one removed. *)
Theorem nonce_record_survives_interleaving l c ers address it S :
  c !! nonceKey address = Some it -> expireAt it = None ->
  reaches l (initial c ers) S ->
  exists it',
    s_cache (shared S) !! nonceKey address = Some it'
    /\ expireAt it' = None
    /\ (it' = it \/ exists n, it' = mkItem (VUint64 n) None).
Proof.
  intros Hk He Hr.
  assert (Hkept : kept (nonceKey address) it c) by (exists it; auto).
  exact (proj1 (kept_initial l c ers _ it S Hkept Hr)).
Qed.

Lemma nonce_record_survives_interleaving_witness :
  exists it',
    s_cache (shared (run_to sample_limiter nonce_key_refused
                       (initial nonce5_cache
                          [(sample_env true (Some 6) StatusOK,
                            example_request); nonce_key_client])))
    !! nonceKey sample_address = Some it'
    /\ expireAt it' = None
    /\ (it' = mkItem (VUint64 5) None
        \/ exists n, it' = mkItem (VUint64 n) None).
Proof.
  refine (nonce_record_survives_interleaving sample_limiter nonce5_cache
            [(sample_env true (Some 6) StatusOK, example_request);
             nonce_key_client]
            sample_address (mkItem (VUint64 5) None) _ _ _ _).
  - reflexivity.
  - reflexivity.
  - apply (run_schedule_reaches _ nonce_key_refused). vm_compute. reflexivity.
Defined.

(** A nonce stored while another request is in flight has no such
    protection: a request whose client address is the nonce key, admitted
    before the nonce was stored, removes it when its handler fails. *)
Example nonce_stored_in_flight_is_removed :
  let S := run_to sample_limiter removal_in_flight
             (initial ∅ [(sample_env true (Some 5) StatusOK, example_request);
                         nonce_key_client]) in
  map t_pc (pool S) = [pDone Committed; pDone RolledBack]
  /\ s_cache (shared S) !! nonceKey sample_address = None.
Proof. vm_compute. split; reflexivity. Qed.

End NonceInterleaved.
